(** * Schema-to-OpenAPI generation engine: a shallow embedding.

    The development follows the two generator programs of the repository:

    - [Basic]    embeds [mysql_to_openapi.py] (one document for all tables);
    - [Enhanced] embeds [mysql_to_individual_openapi.py] (one document per
                 table, with the query-parameter advisor).

    Python values are modelled by the type [value]; a [dict]/[OrderedDict] is
    an association list with unique keys kept in insertion order.  Strings are
    Rocq strings of 8-bit characters, and [lower]/[capitalize] act on the
    ASCII letters, which is what MySQL identifiers and type names are made of.
    A row of [DESCRIBE] is the record [column] of its six fields.

    [Names] holds the table-name functions the three programs share, and
    [YamlData] embeds the export loop of [mysql_to_yaml.py], with the cells
    of a row and [convert_mysql_value] kept abstract.

    The export loops are statements over the shared state of the run that
    may raise, each table inside its own [try]; the loop goes over
    [valid_tables], the names that passed [is_valid_table_name] and
    [table_exists], and takes the answer of the [DESCRIBE] inside the loop
    as part of its input.  Printing is left out, except where it raises. *)

From Stdlib Require Import Bool Arith Lia ZArith List Ascii String.
Import ListNotations.
Open Scope string_scope.
Open Scope list_scope.
Set Warnings "-register-all,-notation-for-abbreviation".

(* ================================================================== *)
(** ** Python primitives *)
(* ================================================================== *)

Module Py.

(** *** Strings *)

Definition is_upper (c : ascii) : bool :=
  let n := nat_of_ascii c in Nat.leb 65 n && Nat.leb n 90.

Definition is_lower (c : ascii) : bool :=
  let n := nat_of_ascii c in Nat.leb 97 n && Nat.leb n 122.

Definition lower_ascii (c : ascii) : ascii :=
  if is_upper c then ascii_of_nat (nat_of_ascii c + 32) else c.

Definition upper_ascii (c : ascii) : ascii :=
  if is_lower c then ascii_of_nat (nat_of_ascii c - 32) else c.

(** [s.lower()] *)
Fixpoint lower (s : string) : string :=
  match s with
  | EmptyString => EmptyString
  | String c r => String (lower_ascii c) (lower r)
  end.

(** [s.capitalize()]: first character upper-cased, the rest lower-cased. *)
Definition capitalize (s : string) : string :=
  match s with
  | EmptyString => EmptyString
  | String c r => String (upper_ascii c) (lower r)
  end.

(** [sub in s] *)
Fixpoint contains (sub s : string) : bool :=
  prefix sub s ||
  match s with
  | EmptyString => false
  | String _ r => contains sub r
  end.

(** [s.endswith(suf)] *)
Fixpoint endswith (s suf : string) : bool :=
  (s =? suf) ||
  match s with
  | EmptyString => false
  | String _ r => endswith r suf
  end.

(** [s[:-1]] *)
Fixpoint drop_last (s : string) : string :=
  match s with
  | EmptyString => EmptyString
  | String c EmptyString => EmptyString
  | String c r => String c (drop_last r)
  end.

(** [sep.join(l)] is [String.concat sep l]; [l[:n]] is [firstn n l]. *)
Definition join (sep : string) (l : list string) : string := String.concat sep l.

(** *** Values *)

Inductive value : Type :=
| VNone
| VBool (b : bool)
| VInt (z : Z)
| VStr (s : string)
| VList (l : list value)
| VSet (l : list value)
| VDict (d : list (string * value)).

Definition dict := list (string * value).

(** *** Dictionaries (insertion-ordered, unique keys) *)

Fixpoint od_get (k : string) (d : dict) : option value :=
  match d with
  | [] => None
  | (k', v) :: r => if k' =? k then Some v else od_get k r
  end.

(** [d[k] = v]: an existing key keeps its position, a new key goes last. *)
Fixpoint od_set (k : string) (v : value) (d : dict) : dict :=
  match d with
  | [] => [(k, v)]
  | (k', v') :: r => if k' =? k then (k', v) :: r else (k', v') :: od_set k v r
  end.

(** [del d[k]] (on a key that is present; absent keys are guarded by the
    callers with [k in d]). *)
Fixpoint od_del (k : string) (d : dict) : dict :=
  match d with
  | [] => []
  | (k', v') :: r => if k' =? k then r else (k', v') :: od_del k r
  end.

Definition od_mem (k : string) (d : dict) : bool :=
  match od_get k d with Some _ => true | None => false end.

Definition od_keys (d : dict) : list string := map fst d.

(** [OrderedDict([(k1, v1), ...])] and dict displays [{k1: v1, ...}]. *)
Definition od_of_pairs (l : list (string * value)) : dict :=
  fold_left (fun d kv => od_set (fst kv) (snd kv) d) l [].

(** Python truthiness. *)
Definition truthy_str (s : string) : bool := negb (s =? "").

Definition truthy (v : value) : bool :=
  match v with
  | VNone => false
  | VBool b => b
  | VInt z => negb (Z.eqb z 0)
  | VStr s => truthy_str s
  | VList l | VSet l => match l with [] => false | _ => true end
  | VDict d => match d with [] => false | _ => true end
  end.

(** [d.get(k, False)] used as a condition. *)
Definition od_get_truthy (k : string) (d : dict) : bool :=
  match od_get k d with Some v => truthy v | None => false end.

(** Exceptions: a computation returns or raises. *)
Inductive result (A : Type) : Type :=
| Ok (a : A)
| Raise (e : string).
Arguments Ok {A} a.
Arguments Raise {A} e.

(** Every [$ref] string of a document tree, in document order. *)
Fixpoint refs (v : value) : list string :=
  match v with
  | VDict d =>
      (fix entries (d : list (string * value)) : list string :=
         match d with
         | [] => []
         | (k, x) :: r =>
             match x with
             | VStr s => if k =? "$ref" then [s] else []
             | _ => refs x
             end ++ entries r
         end) d
  | VList l | VSet l =>
      (fix items (l : list value) : list string :=
         match l with
         | [] => []
         | x :: r => refs x ++ items r
         end) l
  | _ => []
  end.

(** Field access on a value that is a dictionary. *)
Definition vget (k : string) (v : value) : option value :=
  match v with VDict d => od_get k d | _ => None end.

Fixpoint vpath (ks : list string) (v : value) : option value :=
  match ks with
  | [] => Some v
  | k :: r => match vget k v with Some x => vpath r x | None => None end
  end.

(** *** Statements that mutate shared state and may raise

    A statement takes the state to the state it leaves behind and either
    returns or raises: what was mutated before an exception stays mutated. *)

Definition M (S A : Type) : Type := S -> S * result A.

Definition ret {S A : Type} (a : A) : M S A := fun s => (s, Ok a).

Definition bind {S A B : Type} (m : M S A) (k : A -> M S B) : M S B :=
  fun s =>
    match m s with
    | (s', Ok a) => k a s'
    | (s', Raise e) => (s', Raise e)
    end.

Definition lift {S A : Type} (r : result A) : M S A := fun s => (s, r).

Definition raise {S A : Type} (e : string) : M S A := fun s => (s, Raise e).

Definition modify {S : Type} (f : S -> S) : M S unit := fun s => (f s, Ok tt).

Notation "x <- m ;; k" := (bind m (fun x => k))
  (at level 61, m at next level, right associativity).
Notation "m ;;; k" := (bind m (fun _ => k))
  (at level 61, right associativity).

(** [try: body / except Exception: continue] *)
Definition try_continue {S : Type} (body : M S unit) : S -> S :=
  fun s => fst (body s).

(** [for x in l: try: body(x) / except Exception: continue] *)
Definition for_each_try {S A : Type} (body : A -> M S unit) (l : list A) (s : S) : S :=
  fold_left (fun s x => try_continue (body x) s) l s.

(** Does the statement raise from this state? *)
Definition raises {S A : Type} (m : M S A) (s : S) : bool :=
  match snd (m s) with Raise _ => true | Ok _ => false end.

End Py.
Import Py.

(* ================================================================== *)
(** ** Rows of DESCRIBE *)
(* ================================================================== *)

(** [column[0..5]]: Field, Type, Null, Key, Default, Extra.  The default may
    be NULL; a row shorter than six fields has no Extra, which the code reads
    as the empty string. *)
Record column : Type := mkColumn {
  col_name    : string;
  col_type    : string;
  col_null    : string;
  col_key     : string;
  col_default : option string;
  col_extra   : option string
}.

(** A table as the loop of the export meets it: its name and what [DESCRIBE]
    answers for it inside the loop, rows or an error. *)
Record table_input : Type := mkTable {
  tbl_name     : string;
  tbl_describe : result (list column)
}.

Definition is_nullable (c : column) : bool := col_null c =? "YES".
Definition is_pri (c : column) : bool := col_key c =? "PRI".
Definition extra_of (c : column) : string :=
  match col_extra c with Some e => e | None => "" end.
Definition is_auto_increment (c : column) : bool :=
  contains "auto_increment" (lower (extra_of c)).

(** The two schemas under construction and the loop's two flags. *)
Record schema : Type := mkSchema {
  properties : dict;
  required   : list string
}.

Definition schema_value (s : schema) : value :=
  VDict [("type", VStr "object");
         ("properties", VDict (properties s));
         ("required", VList (map VStr (required s)))].

Record loop_state : Type := mkLoop {
  table_schema       : schema;
  new_table_schema   : schema;
  primary_key_column : option string;
  has_auto_increment : bool
}.

Definition loop_init : loop_state :=
  mkLoop (mkSchema [] []) (mkSchema [] []) None false.

(** [table_name[:-1] if table_name.endswith('s') else table_name] *)
Definition resource_singular (table_name : string) : string :=
  if endswith table_name "s" then drop_last table_name else table_name.

(* ================================================================== *)
(** ** mysql_to_openapi.py: the single-document generator *)
(* ================================================================== *)

Module Basic.

Definition mysql_type_to_openapi_type (mysql_type : string) : dict :=
  let mysql_type := lower mysql_type in
  if contains "int" mysql_type then
    if contains "bigint" mysql_type
    then [("type", VStr "integer"); ("format", VStr "int64")]
    else [("type", VStr "integer"); ("format", VStr "int32")]
  else if contains "float" mysql_type || contains "double" mysql_type
          || contains "decimal" mysql_type then
    [("type", VStr "number"); ("format", VStr "double")]
  else if contains "varchar" mysql_type || contains "text" mysql_type
          || contains "char" mysql_type then
    [("type", VStr "string")]
  else if contains "email" (lower mysql_type) || contains "mail" (lower mysql_type) then
    [("type", VStr "string"); ("format", VStr "email")]
  else if contains "datetime" mysql_type || contains "timestamp" mysql_type then
    [("type", VStr "string"); ("format", VStr "date-time")]
  else if contains "date" mysql_type then
    [("type", VStr "string"); ("format", VStr "date")]
  else if contains "bool" mysql_type || contains "tinyint(1)" mysql_type then
    [("type", VStr "boolean")]
  else if contains "json" mysql_type then
    [("type", VStr "object")]
  else
    [("type", VStr "string")].

(** The description chosen from the column name (lines 173-181). *)
Definition describe_by_name (name : string) (openapi_type : dict) : dict :=
  if contains "email" (lower name) then
    od_set "description" (VStr "Email address") openapi_type
  else if contains "phone" (lower name) then
    od_set "description" (VStr "Phone number") openapi_type
  else if contains "date" (lower name) then
    od_set "description" (VStr "Date value") openapi_type
  else if endswith (lower name) "_id" then
    od_set "description" (VStr "Foreign key reference") openapi_type
  else openapi_type.

Definition decorate (c : column) : dict :=
  let openapi_type := mysql_type_to_openapi_type (col_type c) in
  let openapi_type :=
    if is_pri c then od_set "readOnly" (VBool true) openapi_type
    else openapi_type in
  describe_by_name (col_name c) openapi_type.

(** [d.copy()] followed by [if 'readOnly' in d: del d['readOnly']]. *)
Definition without_readOnly (d : dict) : dict :=
  if od_mem "readOnly" d then od_del "readOnly" d else d.

(** One iteration of the loop over the columns (lines 152-197). *)
Definition column_step (st : loop_state) (c : column) : loop_state :=
  let pk := if is_pri c then Some (col_name c) else primary_key_column st in
  let auto :=
    if is_pri c then
      if is_auto_increment c then true else has_auto_increment st
    else has_auto_increment st in
  let openapi_type := decorate c in
  let ts := table_schema st in
  let ts :=
    mkSchema (od_set (col_name c) (VDict openapi_type) (properties ts))
             (if negb (is_nullable c) then required ts ++ [col_name c]
              else required ts) in
  let ns := new_table_schema st in
  let ns :=
    if negb (is_pri c && auto) then
      mkSchema (od_set (col_name c) (VDict (without_readOnly openapi_type))
                       (properties ns))
               (if negb (is_nullable c) && negb (col_key c =? "PRI")
                then required ns ++ [col_name c] else required ns)
    else ns in
  mkLoop ts ns pk auto.

Definition build_schemas (columns : list column) : loop_state :=
  fold_left column_step columns loop_init.

Definition schema_name (table_name : string) : string := capitalize table_name.

Definition singular_schema_name (table_name : string) : string :=
  let s := schema_name table_name in
  if endswith s "s" then drop_last s else s.

Definition new_schema_name (table_name : string) : string :=
  "New" ++ singular_schema_name table_name.

Definition ref_to (name : string) : value :=
  VDict [("$ref", VStr ("#/components/schemas/" ++ name))].

Definition json_content (schema : value) : value :=
  VDict [("application/json", VDict [("schema", schema)])].

(** The collection path [/{table_name}] (lines 211-297). *)
Definition collection_path (table_name : string) : value :=
  let schema_name := schema_name table_name in
  let new_schema_name := new_schema_name table_name in
  let resource_name := resource_singular table_name in
  VDict [
    ("get", VDict [
      ("summary", VStr ("Get all " ++ table_name));
      ("description", VStr ("Retrieves a list of all " ++ table_name ++ "."));
      ("parameters", VList [
        VDict [("in", VStr "query");
               ("name", VStr "limit");
               ("schema", VDict [("type", VStr "integer"); ("minimum", VInt 1);
                                 ("maximum", VInt 1000); ("default", VInt 100)]);
               ("description", VStr "Maximum number of results to return")];
        VDict [("in", VStr "query");
               ("name", VStr "offset");
               ("schema", VDict [("type", VStr "integer"); ("minimum", VInt 0);
                                 ("default", VInt 0)]);
               ("description", VStr "Number of results to skip")]]);
      ("responses", VDict [
        ("200", VDict [
          ("description", VStr ("A list of " ++ table_name ++ "."));
          ("content", json_content (VDict [
            ("type", VStr "object");
            ("properties", VDict [
              ("data", VDict [("type", VStr "array");
                              ("items", ref_to schema_name)]);
              ("total", VDict [("type", VStr "integer");
                               ("description", VStr "Total number of records")]);
              ("limit", VDict [("type", VStr "integer");
                               ("description", VStr "Applied limit")]);
              ("offset", VDict [("type", VStr "integer");
                                ("description", VStr "Applied offset")])])]))]);
        ("400", VDict [("description", VStr "Invalid query parameters.")])])]);
    ("post", VDict [
      ("summary", VStr ("Create a new " ++ resource_name));
      ("description", VStr ("Adds a new " ++ resource_name ++ " to the system."));
      ("requestBody", VDict [
        ("required", VBool true);
        ("content", json_content (ref_to new_schema_name))]);
      ("responses", VDict [
        ("201", VDict [
          ("description", VStr (capitalize resource_name ++ " created successfully."));
          ("content", json_content (ref_to schema_name))]);
        ("400", VDict [("description", VStr "Invalid input data.")]);
        ("409", VDict [("description", VStr "Resource already exists.")])])])].

(** [[col[1].lower() for col in columns if col[0] == pk][0]] (line 301);
    indexing an empty list raises. *)
Definition pk_native_type (columns : list column) (pk : string) : result string :=
  match filter (fun c => col_name c =? pk) columns with
  | c :: _ => Ok (lower (col_type c))
  | [] => Raise "IndexError"
  end.

Definition pk_schema (native : string) : value :=
  let pk_type := if contains "int" native then "integer" else "string" in
  let pk_format := if pk_type =? "integer" then Some "int64" else None in
  let pk_schema := [("type", VStr pk_type)] in
  VDict (match pk_format with
         | Some f => if truthy_str f then od_set "format" (VStr f) pk_schema
                     else pk_schema
         | None => pk_schema
         end).

Definition path_parameter (pk : string) (pk_schema : value) (descr : string) : value :=
  VDict [("in", VStr "path");
         ("name", VStr pk);
         ("required", VBool true);
         ("schema", pk_schema);
         ("description", VStr descr)].

(** The item path [/{table_name}/{pk}] (lines 308-399). *)
Definition item_path (table_name pk : string) (pk_schema : value) : value :=
  let schema_name := schema_name table_name in
  let new_schema_name := new_schema_name table_name in
  let resource_name := resource_singular table_name in
  VDict [
    ("get", VDict [
      ("summary", VStr ("Get " ++ resource_name ++ " by " ++ pk));
      ("description", VStr ("Retrieves a single " ++ resource_name ++ " by their " ++ pk ++ "."));
      ("parameters", VList [
        path_parameter pk pk_schema
          ("The " ++ pk ++ " of the " ++ resource_name ++ " to retrieve.")]);
      ("responses", VDict [
        ("200", VDict [
          ("description", VStr (capitalize resource_name ++ " found."));
          ("content", json_content (ref_to schema_name))]);
        ("404", VDict [
          ("description", VStr (capitalize resource_name ++ " not found."))])])]);
    ("put", VDict [
      ("summary", VStr ("Update " ++ resource_name ++ " by " ++ pk));
      ("description", VStr ("Updates an existing " ++ resource_name ++ "."));
      ("parameters", VList [
        path_parameter pk pk_schema
          ("The " ++ pk ++ " of the " ++ resource_name ++ " to update.")]);
      ("requestBody", VDict [
        ("required", VBool true);
        ("content", json_content (ref_to new_schema_name))]);
      ("responses", VDict [
        ("200", VDict [
          ("description", VStr (capitalize resource_name ++ " updated successfully."));
          ("content", json_content (ref_to schema_name))]);
        ("400", VDict [("description", VStr "Invalid input data.")]);
        ("404", VDict [
          ("description", VStr (capitalize resource_name ++ " not found."))])])]);
    ("delete", VDict [
      ("summary", VStr ("Delete " ++ resource_name ++ " by " ++ pk));
      ("description", VStr ("Deletes a " ++ resource_name ++ " from the system."));
      ("parameters", VList [
        path_parameter pk pk_schema
          ("The " ++ pk ++ " of the " ++ resource_name ++ " to delete.")]);
      ("responses", VDict [
        ("204", VDict [
          ("description", VStr (capitalize resource_name ++ " deleted successfully."))]);
        ("404", VDict [
          ("description", VStr (capitalize resource_name ++ " not found."))])])])].

Definition collection_key (table_name : string) : string := "/" ++ table_name.
Definition item_key (table_name pk : string) : string :=
  "/" ++ table_name ++ "/{" ++ pk ++ "}".

(** *** The export loop (lines 98-430) *)

Record run_state : Type := mkRun {
  paths            : dict;
  schemas          : dict;
  processed_tables : list string
}.

Definition run_init : run_state := mkRun [] [] [].

Definition set_schema (k : string) (v : value) (s : run_state) : run_state :=
  mkRun (paths s) (od_set k v (schemas s)) (processed_tables s).

Definition set_path (k : string) (v : value) (s : run_state) : run_state :=
  mkRun (od_set k v (paths s)) (schemas s) (processed_tables s).

Definition mark_processed (t : string) (s : run_state) : run_state :=
  mkRun (paths s) (schemas s) (processed_tables s ++ [t]).

(** The body of the [try] (lines 125-402). *)
Definition process_table (t : table_input) : M run_state unit :=
  let table_name := tbl_name t in
  columns <- lift (tbl_describe t) ;;
  match columns with
  | [] => ret tt
  | _ :: _ =>
      let st := build_schemas columns in
      modify (set_schema (schema_name table_name) (schema_value (table_schema st))) ;;;
      modify (set_schema (new_schema_name table_name)
                (schema_value (new_table_schema st))) ;;;
      modify (set_path (collection_key table_name) (collection_path table_name)) ;;;
      match primary_key_column st with
      | Some pk =>
          if truthy_str pk then
            native <- lift (pk_native_type columns pk) ;;
            modify (set_path (item_key table_name pk)
                      (item_path table_name pk (pk_schema native)))
          else ret tt
      | None => ret tt
      end ;;;
      modify (mark_processed table_name)
  end.

Definition run (valid_tables : list table_input) : run_state :=
  for_each_try process_table valid_tables run_init.

Definition error_schema : value :=
  VDict [
    ("type", VStr "object");
    ("properties", VDict [
      ("error", VDict [("type", VStr "string");
                       ("description", VStr "Error message")]);
      ("code", VDict [("type", VStr "integer");
                      ("description", VStr "Error code")]);
      ("details", VDict [("type", VStr "object");
                         ("description", VStr "Additional error details")])]);
    ("required", VList [VStr "error"; VStr "code"])].

Definition document (s : run_state) : value :=
  VDict [
    ("openapi", VStr "3.1.0");
    ("info", VDict [
      ("title", VStr "Seniorcare Management API");
      ("description", VStr "A comprehensive API for managing Seniorcare resources.");
      ("version", VStr "1.0.0")]);
    ("servers", VList [
      VDict [("url", VStr "https://api.seniorcare.com/v1");
             ("description", VStr "Production server")];
      VDict [("url", VStr "http://localhost:8080/v1");
             ("description", VStr "Local development server")]]);
    ("paths", VDict (paths s));
    ("components", VDict [
      ("schemas", VDict (od_set "Error" error_schema (schemas s)))])].

(** The document handed to the writer; [None] when the export gives up
    ([No valid tables found!], [No tables were successfully processed!]). *)
Definition export_mysql_to_openapi_yaml (valid_tables : list table_input)
    : option value :=
  match valid_tables with
  | [] => None
  | _ :: _ =>
      let s := run valid_tables in
      match processed_tables s with
      | [] => None
      | _ :: _ => Some (document s)
      end
  end.

End Basic.

(* ================================================================== *)
(** ** mysql_to_individual_openapi.py: the per-table generator *)
(* ================================================================== *)

Module Enhanced.

Definition mysql_type_to_openapi_type (mysql_type : string) : dict :=
  let mysql_type := lower mysql_type in
  if contains "int" mysql_type then
    if contains "bigint" mysql_type then
      [("type", VStr "integer"); ("format", VStr "int64")]
    else if contains "tinyint(1)" mysql_type then
      [("type", VStr "boolean")]
    else
      [("type", VStr "integer"); ("format", VStr "int32")]
  else if contains "float" mysql_type || contains "double" mysql_type
          || contains "decimal" mysql_type then
    [("type", VStr "number"); ("format", VStr "double")]
  else if contains "varchar" mysql_type || contains "text" mysql_type
          || contains "char" mysql_type then
    [("type", VStr "string")]
  else if contains "datetime" mysql_type || contains "timestamp" mysql_type then
    [("type", VStr "string"); ("format", VStr "date-time")]
  else if contains "date" mysql_type then
    [("type", VStr "string"); ("format", VStr "date")]
  else if contains "time" mysql_type then
    [("type", VStr "string"); ("format", VStr "time")]
  else if contains "bool" mysql_type then
    [("type", VStr "boolean")]
  else if contains "json" mysql_type then
    [("type", VStr "object")]
  else if contains "enum" mysql_type then
    [("type", VStr "string")]
  else
    [("type", VStr "string")].

(** *** The query-parameter advisor *)

Definition high_priority_tables : list string :=
  ["users"; "tasks"; "parenttasks"; "taskassignments";
   "assignmentactions"; "taskconflicts"; "notifications";
   "taskrecurrencerule"; "reminders"; "emergencycontacts";
   "familyaccount"; "caregivers"; "seniors"; "family"].

Definition medium_priority_tables : list string :=
  ["categories"; "priorities"; "statuses"; "roles";
   "settings"; "preferences"; "schedules"].

Definition system_tables : list string :=
  ["categorypriority"; "conflictactions"; "conflictsuggestions";
   "log_"; "audit_"; "temp_"; "backup_"].

(** [any(frag in name for frag in frags)] *)
Definition any_in (frags : list string) (name : string) : bool :=
  existsb (fun frag => contains frag name) frags.

Definition should_generate_query_params_individual (table_name : string) : bool :=
  let table_name_lower := lower table_name in
  if any_in system_tables table_name_lower then false
  else any_in high_priority_tables table_name_lower
       || any_in medium_priority_tables table_name_lower.

Definition query_param (name : string) (schema : value) (descr : string) : value :=
  VDict [("name", VStr name);
         ("in", VStr "query");
         ("required", VBool false);
         ("schema", schema);
         ("description", VStr descr)].

Definition user_params (column_names : list string) : list value :=
  [query_param "role_id"
     (VDict [("type", VStr "integer");
             ("enum", VList [VInt 1; VInt 2; VInt 3]);
             ("description", VStr "1=Senior, 2=Family, 3=Caregiver")])
     "Filter by user role";
   query_param "active" (VDict [("type", VStr "boolean")])
     "Filter by active status"]
  ++ (if existsb (contains "name") column_names then
        [query_param "name_search"
           (VDict [("type", VStr "string"); ("minLength", VInt 2)])
           "Search by name (partial match, minimum 2 characters)"]
      else []).

(** The schema of [assigned_to] is written [{'type', 'integer'}] in the
    source: a set of two strings, not a dictionary. *)
Definition task_params (column_names : list string) : list value :=
  [query_param "status_id"
     (VDict [("type", VStr "integer");
             ("enum", VList [VInt 1; VInt 2; VInt 3; VInt 4]);
             ("description", VStr "1=Pending, 2=In Progress, 3=Completed, 4=Cancelled")])
     "Filter by task status";
   query_param "priority_level"
     (VDict [("type", VStr "integer"); ("minimum", VInt 1); ("maximum", VInt 5)])
     "Filter by priority level (1=Low, 5=Critical)";
   query_param "assigned_to" (VSet [VStr "type"; VStr "integer"])
     "Filter by assigned user ID"]
  ++ (if existsb (contains "due") column_names then
        [query_param "due_date_from"
           (VDict [("type", VStr "string"); ("format", VStr "date")])
           "Filter tasks due from this date";
         query_param "due_date_to"
           (VDict [("type", VStr "string"); ("format", VStr "date")])
           "Filter tasks due until this date"]
      else []).

Definition contact_params : list value :=
  [query_param "relationship" (VDict [("type", VStr "string")])
     "Filter by relationship type";
   query_param "is_emergency" (VDict [("type", VStr "boolean")])
     "Filter emergency contacts only"].

Definition notification_params : list value :=
  [query_param "is_read" (VDict [("type", VStr "boolean")])
     "Filter by read status";
   query_param "notification_type" (VDict [("type", VStr "string")])
     "Filter by notification type"].

Definition table_specific_params (table_name_lower : string)
    (column_names : list string) : list value :=
  if contains "users" table_name_lower || contains "user" table_name_lower then
    user_params column_names
  else if contains "task" table_name_lower then task_params column_names
  else if contains "contact" table_name_lower then contact_params
  else if contains "notification" table_name_lower then notification_params
  else [].

Definition date_range_params (column_names : list string) : list value :=
  if existsb (contains "created_at") column_names then
    [query_param "created_from"
       (VDict [("type", VStr "string"); ("format", VStr "date-time")])
       "Filter records created from this date/time";
     query_param "created_to"
       (VDict [("type", VStr "string"); ("format", VStr "date-time")])
       "Filter records created until this date/time"]
  else [].

Definition text_columns (columns : list column) : list string :=
  map col_name
    (filter (fun c => contains "varchar" (lower (col_type c))
                      || contains "text" (lower (col_type c))) columns).

Definition search_params (columns : list column) : list value :=
  let text_columns := text_columns columns in
  if match text_columns with [] => false | _ => true end
     && Nat.ltb 1 (List.length text_columns) then
    [query_param "search"
       (VDict [("type", VStr "string"); ("minLength", VInt 3)])
       ("Global search across text fields: "
          ++ join ", " (firstn 3 text_columns)
          ++ (if Nat.ltb 3 (List.length text_columns) then "..." else ""))]
  else [].

Definition pagination_params (columns : list column) : list value :=
  [query_param "page"
     (VDict [("type", VStr "integer"); ("minimum", VInt 1); ("default", VInt 1)])
     "Page number for pagination";
   query_param "limit"
     (VDict [("type", VStr "integer"); ("minimum", VInt 1);
             ("maximum", VInt 100); ("default", VInt 20)])
     "Number of items per page";
   query_param "sort_by"
     (VDict [("type", VStr "string");
             ("enum", VList (map (fun c => VStr (col_name c)) (firstn 10 columns)))])
     "Field to sort by";
   query_param "sort_order"
     (VDict [("type", VStr "string");
             ("enum", VList [VStr "asc"; VStr "desc"]);
             ("default", VStr "asc")])
     "Sort order (ascending or descending)"].

Definition add_smart_query_params (columns : list column) (table_name : string)
    : list value :=
  if negb (should_generate_query_params_individual table_name) then []
  else
    let table_name_lower := lower table_name in
    let column_names := map (fun c => lower (col_name c)) columns in
    table_specific_params table_name_lower column_names
    ++ date_range_params column_names
    ++ search_params columns
    ++ pagination_params columns.

(** *** Field decoration and the two schemas *)

Definition type_is_string (openapi_type : dict) : bool :=
  match od_get "type" openapi_type with
  | Some (VStr t) => t =? "string"
  | _ => false
  end.

(** The [if]/[elif] chain of lines 327-364; [pk] is [primary_key_column]
    after this column has been looked at. *)
Definition decorate (table_name : string) (pk : option string) (c : column) : dict :=
  let openapi_type := mysql_type_to_openapi_type (col_type c) in
  let name := lower (col_name c) in
  if col_key c =? "PRI" then
    od_set "description" (VStr ("Primary key for " ++ table_name))
      (od_set "readOnly" (VBool true) openapi_type)
  else if contains "email" name then
    od_set "example" (VStr "user@example.com")
      (od_set "description" (VStr "Valid email address")
         (od_set "format" (VStr "email") openapi_type))
  else if contains "phone" name then
    od_set "example" (VStr "+1234567890")
      (od_set "description" (VStr "Phone number (7-15 digits)")
         (od_set "pattern" (VStr "^[+]?[1-9]?[0-9]{7,15}$") openapi_type))
  else if name =? "priority_level_id" then
    od_set "description"
      (VStr "Priority level (1=Low, 2=Medium, 3=High, 4=Urgent, 5=Critical)")
      (od_set "maximum" (VInt 5) (od_set "minimum" (VInt 1) openapi_type))
  else if name =? "age" then
    od_set "description" (VStr "Age in years")
      (od_set "maximum" (VInt 150) (od_set "minimum" (VInt 0) openapi_type))
  else if contains "status" name then
    od_set "description" (VStr "Status identifier") openapi_type
  else if contains "created_at" name then
    od_set "readOnly" (VBool true)
      (od_set "description" (VStr "Record creation timestamp") openapi_type)
  else if contains "updated_at" name then
    od_set "readOnly" (VBool true)
      (od_set "description" (VStr "Last update timestamp") openapi_type)
  else if endswith name "_id"
          && negb (match pk with Some p => name =? p | None => false end) then
    od_set "description" (VStr "Foreign key reference to related entity") openapi_type
  else if contains "name" name then
    let openapi_type := od_set "description" (VStr "Name or title") openapi_type in
    if type_is_string openapi_type then
      od_set "maxLength" (VInt 255) (od_set "minLength" (VInt 1) openapi_type)
    else openapi_type
  else if contains "description" name then
    let openapi_type := od_set "description" (VStr "Detailed description") openapi_type in
    if type_is_string openapi_type then
      od_set "maxLength" (VInt 1000) openapi_type
    else openapi_type
  else openapi_type.

(** [create_type = openapi_type.copy()] then
    [if 'readOnly' in create_type: del create_type['readOnly']]. *)
Definition without_readOnly (d : dict) : dict :=
  if od_mem "readOnly" d then od_del "readOnly" d else d.

(** One iteration of the loop over the columns (lines 311-379). *)
Definition column_step (table_name : string) (st : loop_state) (c : column)
    : loop_state :=
  let pk := if is_pri c then Some (col_name c) else primary_key_column st in
  let auto :=
    if is_pri c then
      if is_auto_increment c then true else has_auto_increment st
    else has_auto_increment st in
  let openapi_type := decorate table_name pk c in
  let ts := table_schema st in
  let ts :=
    mkSchema (od_set (col_name c) (VDict openapi_type) (properties ts))
             (if negb (is_nullable c) then required ts ++ [col_name c]
              else required ts) in
  let ns := new_table_schema st in
  let ns :=
    if negb (is_pri c && auto) && negb (od_get_truthy "readOnly" openapi_type) then
      mkSchema (od_set (col_name c) (VDict (without_readOnly openapi_type))
                       (properties ns))
               (if negb (is_nullable c) && negb (col_key c =? "PRI")
                then required ns ++ [col_name c] else required ns)
    else ns in
  mkLoop ts ns pk auto.

Definition build_schemas (table_name : string) (columns : list column) : loop_state :=
  fold_left (column_step table_name) columns loop_init.

Definition schema_name (table_name : string) : string := capitalize table_name.

Definition singular_schema_name (table_name : string) : string :=
  let s := schema_name table_name in
  if endswith s "s" then drop_last s else s.

Definition new_schema_name (table_name : string) : string :=
  "Create" ++ singular_schema_name table_name.

Definition update_schema_name (table_name : string) : string :=
  "Update" ++ singular_schema_name table_name.

(** The update schema: the create schema's properties, nothing required. *)
Definition update_table_schema (new_table_schema : schema) : schema :=
  mkSchema (properties new_table_schema) [].

(** *** The document *)

Definition schema_ref (name : string) : value :=
  VDict [("$ref", VStr ("#/components/schemas/" ++ name))].

Definition response_ref (name : string) : value :=
  VDict [("$ref", VStr ("#/components/responses/" ++ name))].

Definition json_content (schema : value) : value :=
  VDict [("application/json", VDict [("schema", schema)])].

Definition info (table_name : string) : value :=
  let schema_name := schema_name table_name in
  VDict [
    ("title", VStr (schema_name ++ " Management API"));
    ("description", VStr ("Individual microservice API for managing " ++ table_name
       ++ " in the Seniorcare ecosystem. Provides comprehensive CRUD operations with intelligent search, filtering, and validation."));
    ("version", VStr "2.1.0");
    ("contact", VDict [
      ("name", VStr (schema_name ++ " API Support"));
      ("email", VStr (table_name ++ "-api@seniorcare.com"));
      ("url", VStr ("https://docs.seniorcare.com/apis/" ++ table_name))]);
    ("license", VDict [
      ("name", VStr "MIT");
      ("url", VStr "https://opensource.org/licenses/MIT")])].

Definition servers (table_name : string) : value :=
  VList [
    VDict [("url", VStr ("https://api.seniorcare.com/v1/" ++ table_name));
           ("description", VStr ("Production " ++ table_name ++ " service"))];
    VDict [("url", VStr ("https://staging-api.seniorcare.com/v1/" ++ table_name));
           ("description", VStr ("Staging " ++ table_name ++ " service"))];
    VDict [("url", VStr ("http://localhost:8080/v1/" ++ table_name));
           ("description", VStr ("Local development " ++ table_name ++ " service"))]].

Definition pagination_meta : value :=
  VDict [
    ("type", VStr "object");
    ("properties", VDict [
      ("page", VDict [("type", VStr "integer");
                      ("description", VStr "Current page number")]);
      ("limit", VDict [("type", VStr "integer");
                       ("description", VStr "Items per page")]);
      ("total", VDict [("type", VStr "integer");
                       ("description", VStr "Total number of items")]);
      ("pages", VDict [("type", VStr "integer");
                       ("description", VStr "Total number of pages")]);
      ("has_next", VDict [("type", VStr "boolean");
                          ("description", VStr "Whether there is a next page")]);
      ("has_prev", VDict [("type", VStr "boolean");
                          ("description", VStr "Whether there is a previous page")])]);
    ("required", VList [VStr "page"; VStr "limit"; VStr "total"; VStr "pages"])].

Definition error_property (example : string) : value :=
  VDict [("type", VStr "string"); ("example", VStr example)].

Definition validation_error : value :=
  VDict [
    ("description", VStr "Validation error with detailed field-level errors");
    ("content", json_content (VDict [
      ("type", VStr "object");
      ("properties", VDict [
        ("error", error_property "Validation failed");
        ("code", error_property "VALIDATION_ERROR");
        ("details", VDict [
          ("type", VStr "array");
          ("items", VDict [
            ("type", VStr "object");
            ("properties", VDict [
              ("field", VDict [("type", VStr "string")]);
              ("message", VDict [("type", VStr "string")]);
              ("code", VDict [("type", VStr "string")])])])])]);
      ("required", VList [VStr "error"; VStr "code"])]))].

Definition not_found (resource_name : string) : value :=
  VDict [
    ("description", VStr "Resource not found");
    ("content", json_content (VDict [
      ("type", VStr "object");
      ("properties", VDict [
        ("error", error_property (capitalize resource_name ++ " not found"));
        ("code", error_property "NOT_FOUND")]);
      ("required", VList [VStr "error"; VStr "code"])]))].

Definition conflict : value :=
  VDict [
    ("description", VStr "Resource conflict (duplicate, constraint violation)");
    ("content", json_content (VDict [
      ("type", VStr "object");
      ("properties", VDict [
        ("error", error_property "Resource already exists");
        ("code", error_property "CONFLICT")])]))].

(** [components.schemas]: built from a list of pairs whose first three keys
    are derived from the table name. *)
Definition component_schemas (table_name : string) (st : loop_state) : dict :=
  od_of_pairs [
    (schema_name table_name, schema_value (table_schema st));
    (new_schema_name table_name, schema_value (new_table_schema st));
    (update_schema_name table_name,
       schema_value (update_table_schema (new_table_schema st)));
    ("PaginationMeta", pagination_meta)].

Definition component_responses (table_name : string) : dict :=
  [("ValidationError", validation_error);
   ("NotFound", not_found (resource_singular table_name));
   ("Conflict", conflict)].

(** The collection GET; [parameters] is added only for a non-empty list. *)
Definition get_endpoint (table_name : string) (query_params : list value) : value :=
  let schema_name := schema_name table_name in
  let get_endpoint := [
    ("summary", VStr ("List all " ++ table_name));
    ("description", VStr ("Retrieve a paginated list of " ++ table_name
       ++ " with advanced filtering, search, and sorting capabilities"));
    ("operationId", VStr ("list" ++ schema_name));
    ("tags", VList [VStr (capitalize table_name)]);
    ("responses", VDict [
      ("200", VDict [
        ("description", VStr ("Successfully retrieved list of " ++ table_name));
        ("content", json_content (VDict [
          ("type", VStr "object");
          ("properties", VDict [
            ("data", VDict [("type", VStr "array");
                            ("items", schema_ref schema_name)]);
            ("meta", schema_ref "PaginationMeta")]);
          ("required", VList [VStr "data"; VStr "meta"])]))]);
      ("400", response_ref "ValidationError")])] in
  VDict (if truthy (VList query_params)
         then od_set "parameters" (VList query_params) get_endpoint
         else get_endpoint).

Definition post_endpoint (table_name : string) : value :=
  let schema_name := schema_name table_name in
  let resource_name := resource_singular table_name in
  VDict [
    ("summary", VStr ("Create new " ++ resource_name));
    ("description", VStr ("Create a new " ++ resource_name
       ++ " record with comprehensive validation"));
    ("operationId", VStr ("create" ++ singular_schema_name table_name));
    ("tags", VList [VStr (capitalize table_name)]);
    ("requestBody", VDict [
      ("required", VBool true);
      ("content", json_content (schema_ref (new_schema_name table_name)))]);
    ("responses", VDict [
      ("201", VDict [
        ("description", VStr (capitalize resource_name ++ " created successfully"));
        ("content", json_content (schema_ref schema_name))]);
      ("400", response_ref "ValidationError");
      ("409", response_ref "Conflict")])].

Definition collection_path (table_name : string) (query_params : list value) : value :=
  VDict [("get", get_endpoint table_name query_params);
         ("post", post_endpoint table_name)].

(** [[col[1].lower() for col in columns if col[0] == pk][0]] (line 610);
    indexing an empty list raises. *)
Definition pk_native_type (columns : list column) (pk : string) : result string :=
  match filter (fun c => col_name c =? pk) columns with
  | c :: _ => Ok (lower (col_type c))
  | [] => Raise "IndexError"
  end.

Definition pk_schema (native : string) : value :=
  let pk_type := if contains "int" native then "integer" else "string" in
  let pk_schema := [("type", VStr pk_type)] in
  VDict (if pk_type =? "integer"
         then od_set "minimum" (VInt 1) (od_set "format" (VStr "int64") pk_schema)
         else pk_schema).

Definition path_parameter (table_name pk : string) (pk_schema : value) : value :=
  VDict [("name", VStr pk);
         ("in", VStr "path");
         ("required", VBool true);
         ("schema", pk_schema);
         ("description", VStr ("The unique identifier of the "
                                 ++ resource_singular table_name))].

(** The item path [/{pk}] (lines 616-726). *)
Definition item_path (table_name pk : string) (pk_schema : value) : value :=
  let schema_name := schema_name table_name in
  let singular := singular_schema_name table_name in
  let resource_name := resource_singular table_name in
  let tags := VList [VStr (capitalize table_name)] in
  let parameters := VList [path_parameter table_name pk pk_schema] in
  VDict [
    ("get", VDict [
      ("summary", VStr ("Get " ++ resource_name ++ " by ID"));
      ("description", VStr ("Retrieve a specific " ++ resource_name ++ " by its identifier"));
      ("operationId", VStr ("get" ++ singular ++ "ById"));
      ("tags", tags);
      ("parameters", parameters);
      ("responses", VDict [
        ("200", VDict [
          ("description", VStr (capitalize resource_name ++ " found"));
          ("content", json_content (schema_ref schema_name))]);
        ("404", response_ref "NotFound")])]);
    ("put", VDict [
      ("summary", VStr ("Update " ++ resource_name ++ " (full replace)"));
      ("description", VStr ("Completely replace an existing " ++ resource_name ++ " with new data"));
      ("operationId", VStr ("update" ++ singular));
      ("tags", tags);
      ("parameters", parameters);
      ("requestBody", VDict [
        ("required", VBool true);
        ("content", json_content (schema_ref (new_schema_name table_name)))]);
      ("responses", VDict [
        ("200", VDict [
          ("description", VStr (capitalize resource_name ++ " updated successfully"));
          ("content", json_content (schema_ref schema_name))]);
        ("404", response_ref "NotFound");
        ("400", response_ref "ValidationError")])]);
    ("patch", VDict [
      ("summary", VStr ("Partially update " ++ resource_name));
      ("description", VStr ("Update specific fields of an existing " ++ resource_name));
      ("operationId", VStr ("patch" ++ singular));
      ("tags", tags);
      ("parameters", parameters);
      ("requestBody", VDict [
        ("required", VBool true);
        ("content", json_content (schema_ref (update_schema_name table_name)))]);
      ("responses", VDict [
        ("200", VDict [
          ("description", VStr (capitalize resource_name ++ " partially updated successfully"));
          ("content", json_content (schema_ref schema_name))]);
        ("404", response_ref "NotFound");
        ("400", response_ref "ValidationError")])]);
    ("delete", VDict [
      ("summary", VStr ("Delete " ++ resource_name));
      ("description", VStr ("Permanently delete a " ++ resource_name ++ " from the system"));
      ("operationId", VStr ("delete" ++ singular));
      ("tags", tags);
      ("parameters", parameters);
      ("responses", VDict [
        ("204", VDict [
          ("description", VStr (capitalize resource_name ++ " deleted successfully"))]);
        ("404", response_ref "NotFound")])])].

Definition item_key (pk : string) : string := "/{" ++ pk ++ "}".

Definition document (table_name : string) (st : loop_state) (paths : dict) : value :=
  VDict [
    ("openapi", VStr "3.1.0");
    ("info", info table_name);
    ("servers", servers table_name);
    ("paths", VDict paths);
    ("components", VDict [
      ("schemas", VDict (component_schemas table_name st));
      ("responses", VDict (component_responses table_name))])].

Definition create_enhanced_individual_table_spec (table_name : string)
    (columns : list column) : result value :=
  let st := build_schemas table_name columns in
  let query_params := add_smart_query_params columns table_name in
  let paths := od_set "/" (collection_path table_name query_params) [] in
  match primary_key_column st with
  | Some pk =>
      if truthy_str pk then
        match pk_native_type columns pk with
        | Ok native =>
            Ok (document table_name st
                  (od_set (item_key pk) (item_path table_name pk (pk_schema native))
                     paths))
        | Raise e => Raise e
        end
      else Ok (document table_name st paths)
  | None => Ok (document table_name st paths)
  end.

(** *** The export loop (lines 782-877)

    [sink] answers for the writer: whether [open] and [yaml.dump] succeed on
    a file name.  A write that raises is recorded as no file at all. *)

Record run_state : Type := mkRun {
  written         : list (string * value);
  generated_files : list string;
  searchable_apis : list string;
  system_apis     : list string
}.

Definition run_init : run_state := mkRun [] [] [] [].

Definition write_file (f : string) (doc : value) (s : run_state) : run_state :=
  mkRun (written s ++ [(f, doc)]) (generated_files s)
        (searchable_apis s) (system_apis s).

Definition add_generated (f : string) (s : run_state) : run_state :=
  mkRun (written s) (generated_files s ++ [f])
        (searchable_apis s) (system_apis s).

Definition add_searchable (t : string) (s : run_state) : run_state :=
  mkRun (written s) (generated_files s) (searchable_apis s ++ [t]) (system_apis s).

Definition add_system (t : string) (s : run_state) : run_state :=
  mkRun (written s) (generated_files s) (searchable_apis s) (system_apis s ++ [t]).

Definition output_file (table_name : string) : string :=
  "exports/individual_apis_enhanced/" ++ table_name ++ "_api.yaml".

(** The body of the [try] (lines 788-835).  The [print] of line 820 reads
    [status_icon], a name bound nowhere in the program: it raises, and the
    lines after it are never reached. *)
Definition process_table (sink : string -> result unit) (t : table_input)
    : M run_state unit :=
  let table_name := tbl_name t in
  columns <- lift (tbl_describe t) ;;
  match columns with
  | [] => ret tt
  | _ :: _ =>
      openapi_spec <- lift (create_enhanced_individual_table_spec table_name columns) ;;
      let output_file := output_file table_name in
      lift (sink output_file) ;;;
      modify (write_file output_file openapi_spec) ;;;
      modify (add_generated output_file) ;;;
      (if should_generate_query_params_individual table_name
       then modify (add_searchable table_name)
       else modify (add_system table_name)) ;;;
      raise "NameError"
  end.

Definition run (sink : string -> result unit) (valid_tables : list table_input)
    : run_state :=
  for_each_try (process_table sink) valid_tables run_init.

Definition index_content (s : run_state) : value :=
  let entry api := (api, VStr (api ++ "_api_v2.1.yaml")) in
  VDict [
    ("seniorcare_individual_apis", VDict [
      ("version", VStr "2.1.0");
      ("description", VStr "Enhanced individual microservice APIs for Seniorcare system");
      ("generated_at", VStr "auto-generated");
      ("apis", VDict [
        ("searchable", VDict (od_of_pairs (map entry (searchable_apis s))));
        ("system", VDict (od_of_pairs (map entry (system_apis s))))])])].

(** The files written for the tables and the index; [None] when the export
    stops at [No valid tables found!]. *)
Definition export_enhanced_individual_openapi_specs
    (sink : string -> result unit) (valid_tables : list table_input)
    : option (list (string * value) * value) :=
  match valid_tables with
  | [] => None
  | _ :: _ =>
      let s := run sink valid_tables in
      Some (written s, index_content s)
  end.

End Enhanced.

(* ================================================================== *)
(** ** Table names (the three programs share these functions) *)
(* ================================================================== *)

Module Names.

(** [str.isspace] on the characters below 256. *)
Definition is_space (c : ascii) : bool :=
  let n := nat_of_ascii c in
  (Nat.leb 9 n && Nat.leb n 13) || (Nat.leb 28 n && Nat.leb n 32)
  || Nat.eqb n 133 || Nat.eqb n 160.

Definition is_digit (c : ascii) : bool :=
  let n := nat_of_ascii c in Nat.leb 48 n && Nat.leb n 57.

(** The character class [[a-zA-Z0-9_]]. *)
Definition is_word (c : ascii) : bool :=
  is_lower c || is_upper c || is_digit c || Ascii.eqb c "_".

Fixpoint lstrip (s : string) : string :=
  match s with
  | EmptyString => EmptyString
  | String c r => if is_space c then lstrip r else s
  end.

Fixpoint rstrip (s : string) : string :=
  match s with
  | EmptyString => EmptyString
  | String c r =>
      let r' := rstrip r in
      if is_space c && (r' =? "") then EmptyString else String c r'
  end.

(** [s.strip()] *)
Definition strip (s : string) : string := rstrip (lstrip s).

(** What is left of [s] after its longest prefix of word characters. *)
Fixpoint skip_word (s : string) : string :=
  match s with
  | EmptyString => EmptyString
  | String c r => if is_word c then skip_word r else s
  end.

Definition newline : string := String (ascii_of_nat 10) EmptyString.

(** [re.match(r'^[a-zA-Z0-9_]+$', s)]: at least one word character, then
    the end of the string, which [$] also finds before a final newline. *)
Definition match_word_line (s : string) : bool :=
  match s with
  | EmptyString => false
  | String c _ =>
      is_word c
      && (let rest := skip_word s in (rest =? "") || (rest =? newline))
  end.

Definition is_valid_table_name (table_name : string) : bool :=
  match_word_line (strip table_name).

(** [re.sub(r'[^a-zA-Z0-9_]', '', s)] *)
Fixpoint keep_word (s : string) : string :=
  match s with
  | EmptyString => EmptyString
  | String c r => if is_word c then String c (keep_word r) else keep_word r
  end.

Definition sanitize_table_name (table_name : string) : string :=
  keep_word (strip table_name).

(** The loop that sorts the answer of [SHOW TABLES] into [valid_tables] and
    [invalid_tables]; [table_exists] answers for the [DESCRIBE] probe. *)
Definition sort_table (table_exists : string -> bool)
    (lists : list string * list string) (raw : string)
    : list string * list string :=
  let table_name := strip raw in
  if is_valid_table_name table_name && table_exists table_name
  then (fst lists ++ [table_name], snd lists)
  else (fst lists, snd lists ++ [table_name]).

Definition sort_tables (table_exists : string -> bool) (raw_tables : list string)
    : list string * list string :=
  fold_left (sort_table table_exists) raw_tables ([], []).

End Names.

(* ================================================================== *)
(** ** mysql_to_yaml.py: the data export *)
(* ================================================================== *)

(** The cells of a row are kept abstract, and so is [convert_mysql_value],
    which maps every cell to a cell (dates to ISO text, decimals to floats,
    bytes to text) and never raises. *)
Module YamlData.

Section DataLoop.

Variable cell : Type.
Variable convert_mysql_value : cell -> cell.

Definition row_dict : Type := list (string * cell).

(** [row_dict[k] = v] on a plain [dict], which keeps insertion order. *)
Fixpoint rd_set (k : string) (v : cell) (d : row_dict) : row_dict :=
  match d with
  | [] => [(k, v)]
  | (k', v') :: r => if k' =? k then (k', v) :: r else (k', v') :: rd_set k v r
  end.

Fixpoint rd_get (k : string) (d : row_dict) : option cell :=
  match d with
  | [] => None
  | (k', v) :: r => if k' =? k then Some v else rd_get k r
  end.

(** [for i, col_name in enumerate(columns): row_dict[col_name] =
    convert_mysql_value(row[i])], from index [i] on; [row[i]] raises past the
    end of the row. *)
Fixpoint fill_row (columns : list string) (row : list cell) (i : nat)
    (d : row_dict) : result row_dict :=
  match columns with
  | [] => Ok d
  | col_name :: rest =>
      match nth_error row i with
      | Some x => fill_row rest row (S i) (rd_set col_name (convert_mysql_value x) d)
      | None => Raise "IndexError"
      end
  end.

Definition make_row_dict (columns : list string) (row : list cell)
    : result row_dict :=
  fill_row columns row 0 [].

(** [for row in rows: ... table_data.append(row_dict)] *)
Fixpoint make_table_data (columns : list string) (rows : list (list cell))
    : result (list row_dict) :=
  match rows with
  | [] => Ok []
  | row :: rest =>
      match make_row_dict columns row with
      | Ok d =>
          match make_table_data columns rest with
          | Ok ds => Ok (d :: ds)
          | Raise e => Raise e
          end
      | Raise e => Raise e
      end
  end.

(** A table as the loop meets it: its name, the answer of [SELECT *] and
    the answer of [DESCRIBE]. *)
Record table_source : Type := mkSource {
  src_name     : string;
  src_select   : result (list (list cell));
  src_describe : result (list column)
}.

Record run_state : Type := mkRun {
  files          : list (string * list row_dict);
  exported_files : list (string * string * nat);
  total_records  : nat
}.

Definition run_init : run_state := mkRun [] [] 0.

Definition write_file (f : string) (data : list row_dict) (s : run_state)
    : run_state :=
  mkRun (files s ++ [(f, data)]) (exported_files s) (total_records s).

Definition add_exported (e : string * string * nat) (s : run_state) : run_state :=
  mkRun (files s) (exported_files s ++ [e]) (total_records s).

Definition add_records (n : nat) (s : run_state) : run_state :=
  mkRun (files s) (exported_files s) (total_records s + n).

Definition file_path (table_name : string) : string :=
  "exports/yaml_data" ++ "/" ++ table_name ++ ".yaml".

(** The body of the [try] (lines 89-131); [sink] answers for the writer. *)
Definition process_table (sink : string -> result unit) (t : table_source)
    : M run_state unit :=
  let table_name := src_name t in
  rows <- lift (src_select t) ;;
  let file_path := file_path table_name in
  if Nat.eqb (List.length rows) 0 then
    lift (sink file_path) ;;;
    modify (write_file file_path []) ;;;
    modify (add_exported (table_name, file_path, 0))
  else
    columns_info <- lift (src_describe t) ;;
    let columns := map col_name columns_info in
    table_data <- lift (make_table_data columns rows) ;;
    lift (sink file_path) ;;;
    modify (write_file file_path table_data) ;;;
    modify (add_exported (table_name, file_path, List.length table_data)) ;;;
    modify (add_records (List.length table_data)).

Definition run (sink : string -> result unit) (valid_tables : list table_source)
    : run_state :=
  for_each_try (process_table sink) valid_tables run_init.

End DataLoop.

End YamlData.

(* ================================================================== *)
(** ** Vocabulary of the properties *)
(* ================================================================== *)

(** [strip_prefix p s] is what follows [p] in [s], when [s] starts with [p]. *)
Fixpoint strip_prefix (p s : string) : option string :=
  match p with
  | EmptyString => Some s
  | String a p' =>
      match s with
      | EmptyString => None
      | String b s' => if Ascii.eqb a b then strip_prefix p' s' else None
      end
  end.

Definition is_some {A : Type} (o : option A) : bool :=
  match o with Some _ => true | None => false end.

(** A reference resolves in a document when it names a key of the
    document's [components.schemas] or [components.responses]. *)
Definition resolves (doc : value) (ref : string) : bool :=
  match strip_prefix "#/components/schemas/" ref with
  | Some k => is_some (vpath ["components"; "schemas"; k] doc)
  | None =>
      match strip_prefix "#/components/responses/" ref with
      | Some k => is_some (vpath ["components"; "responses"; k] doc)
      | None => false
      end
  end.

(** The references contributed by one entry of a dictionary. *)
Definition refs_entry (kv : string * value) : list string :=
  match snd kv with
  | VStr s => if fst kv =? "$ref" then [s] else []
  | x => refs x
  end.

(** The references a per-table document is built with. *)
Definition enhanced_references (table_name : string) : list string :=
  ["#/components/schemas/" ++ Enhanced.schema_name table_name;
   "#/components/schemas/" ++ Enhanced.new_schema_name table_name;
   "#/components/schemas/" ++ Enhanced.update_schema_name table_name;
   "#/components/schemas/PaginationMeta";
   "#/components/responses/ValidationError";
   "#/components/responses/NotFound";
   "#/components/responses/Conflict"]%string.

(** The references to the schemas named by [keys]. *)
Definition schema_references (keys : list string) : list string :=
  map (fun k => "#/components/schemas/" ++ k)%string keys.

(** What the single-document generator keeps true of its document while it
    goes through the tables: the paths refer to schemas that are there, and
    the schemas refer to nothing. *)
Definition basic_integrity (s : Basic.run_state) : Prop :=
  incl (refs (VDict (Basic.paths s)))
       (schema_references (od_keys (Basic.schemas s)))
  /\ refs (VDict (Basic.schemas s)) = [].

(** [DESCRIBE] answered with at least one row. *)
Definition has_rows (t : table_input) : bool :=
  match tbl_describe t with
  | Ok (_ :: _) => true
  | _ => false
  end.

(** What one table does to the state of the per-table export: nothing, or
    its file, its file name and its name in one of the two index lists. *)
Definition enhanced_effect (sink : string -> result unit) (t : table_input)
    (s : Enhanced.run_state) : Enhanced.run_state :=
  match tbl_describe t with
  | Ok (c0 :: rest) =>
      match Enhanced.create_enhanced_individual_table_spec (tbl_name t) (c0 :: rest),
            sink (Enhanced.output_file (tbl_name t)) with
      | Ok doc, Ok _ =>
          (if Enhanced.should_generate_query_params_individual (tbl_name t)
           then Enhanced.add_searchable (tbl_name t)
           else Enhanced.add_system (tbl_name t))
            (Enhanced.add_generated (Enhanced.output_file (tbl_name t))
               (Enhanced.write_file (Enhanced.output_file (tbl_name t)) doc s))
      | _, _ => s
      end
  | _ => s
  end.

(** Every character of the string is a word character. *)
Definition all_word (s : string) : bool :=
  forallb Names.is_word (list_ascii_of_string s).

(** The string does not end with white space. *)
Fixpoint no_trailing_space (s : string) : bool :=
  match s with
  | EmptyString => true
  | String c r => if r =? "" then negb (Names.is_space c) else no_trailing_space r
  end.

(** The pairs of type and format an OpenAPI field of this generator has. *)
Definition field_kinds : list (string * option string) :=
  [("integer", Some "int32"); ("integer", Some "int64");
   ("number", Some "double");
   ("string", None); ("string", Some "email"); ("string", Some "date-time");
   ("string", Some "date"); ("string", Some "time");
   ("boolean", None); ("object", None)].

(** The dictionary that holds a type and, possibly, a format. *)
Definition field_of_kind (k : string * option string) : dict :=
  ("type", VStr (fst k))
  :: match snd k with Some f => [("format", VStr f)] | None => [] end.

(** A path key of the single document that belongs to table [t]: its
    collection path, or its item path under one of its primary-key columns. *)
Definition path_of_table (t : table_input) (k : string) : Prop :=
  has_rows t = true
  /\ (k = Basic.collection_key (tbl_name t)
      \/ exists c columns,
           tbl_describe t = Ok columns /\ In c columns /\ is_pri c = true
           /\ k = Basic.item_key (tbl_name t) (col_name c)).

(** The writer accepted the file of the table. *)
Definition sink_ok (sink : string -> result unit) (t : table_input) : bool :=
  match sink (Enhanced.output_file (tbl_name t)) with
  | Ok _ => true
  | Raise _ => false
  end.

(** The table had rows and its file was written. *)
Definition wrote (sink : string -> result unit) (t : table_input) : bool :=
  has_rows t && sink_ok sink t.

(** What the loop keeps true of the read schema, for either generator. *)
Definition read_schema_ok (l : list column) (st : loop_state) : Prop :=
  required (table_schema st)
  = map col_name (filter (fun c => negb (is_nullable c)) l)
  /\ (NoDup (map col_name l) ->
      od_keys (properties (table_schema st)) = map col_name l).

(** What the loops keep true of the write schema. *)
Definition write_schema_ok (clean : dict -> dict) (l : list column)
    (st : loop_state) : Prop :=
  (forall k, In k (od_keys (properties (new_table_schema st))) ->
             In k (map col_name l))
  /\ (forall k v, od_get k (properties (new_table_schema st)) = Some v ->
        exists d, v = VDict d /\ od_get "readOnly" d = None
                  /\ In k (od_keys (properties (table_schema st))))
  /\ (NoDup (map col_name l) ->
      forall k v, od_get k (properties (new_table_schema st)) = Some v ->
        exists d, od_get k (properties (table_schema st)) = Some (VDict d)
                  /\ v = VDict (clean d)).

(** The keys of a value that is a dictionary. *)
Definition vkeys (v : value) : list string :=
  match v with VDict d => od_keys d | _ => [] end.

(** Sample tables. *)

(** A lookup table keyed by a code the client chooses. *)
Definition natural_key_columns : list column :=
  [mkColumn "code" "varchar(10)" "NO" "PRI" None (Some "");
   mkColumn "label" "varchar(255)" "NO" "" None (Some "")].

(** The [users] table of the round-trip scenario. *)
Definition users_columns : list column :=
  [mkColumn "id" "int(11)" "NO" "PRI" None (Some "auto_increment");
   mkColumn "email" "varchar(255)" "NO" "" None (Some "");
   mkColumn "created_at" "timestamp" "YES" "" None (Some "")].

(** A table without a primary key. *)
Definition keyless_columns : list column :=
  [mkColumn "message" "text" "YES" "" None (Some "");
   mkColumn "created_at" "timestamp" "NO" "" None (Some "")].

(* ================================================================== *)
(** ** Facts about the Python primitives *)
(* ================================================================== *)

Section StringFacts.

Lemma prefix_iff (a s : string) :
  prefix a s = true <-> exists q, s = (a ++ q)%string.
Proof.
  revert s; induction a as [|c a IH]; intros s; simpl.
  - destruct s; split; eauto.
  - destruct s as [|c' s']; simpl.
    + split; [discriminate | intros [q Hq]; discriminate].
    + destruct (ascii_dec c c') as [->|Hne].
      * rewrite IH. split; intros [q Hq]; exists q; congruence.
      * split; [discriminate | intros [q Hq]; congruence].
Qed.

Lemma contains_iff (a s : string) :
  contains a s = true <-> exists p q, s = (p ++ a ++ q)%string.
Proof.
  induction s as [|c s IH].
  - change (contains a "") with (prefix a "" || false).
    rewrite orb_false_r, prefix_iff. split.
    + intros [q Hq]. exists "", q. exact Hq.
    + intros [p [q Hq]]. destruct p; simpl in Hq; [eauto | discriminate].
  - change (contains a (String c s)) with (prefix a (String c s) || contains a s).
    rewrite orb_true_iff, IH, prefix_iff. split.
    + intros [[q Hq] | [p [q Hq]]].
      * exists "", q. exact Hq.
      * exists (String c p), q. simpl. congruence.
    + intros [p [q Hq]]. destruct p as [|c' p]; simpl in Hq.
      * left; eauto.
      * right. exists p, q. congruence.
Qed.

Lemma append_assoc (a b c : string) : ((a ++ b) ++ c = a ++ b ++ c)%string.
Proof. induction a; simpl; congruence. Qed.

(** A substring of a substring is a substring. *)
Lemma contains_trans (a b s : string) :
  contains a b = true -> contains b s = true -> contains a s = true.
Proof.
  rewrite !contains_iff. intros [p [q ->]] [p' [q' ->]].
  exists (p' ++ p)%string, (q ++ q')%string. now rewrite !append_assoc.
Qed.

Lemma endswith_iff (s suf : string) :
  endswith s suf = true <-> exists p, s = (p ++ suf)%string.
Proof.
  induction s as [|c s IH].
  - change (endswith "" suf) with (("" =? suf) || false).
    rewrite orb_false_r, String.eqb_eq. split.
    + intros <-. now exists "".
    + intros [p Hp]. destruct p; simpl in Hp; [auto | discriminate].
  - change (endswith (String c s) suf)
      with ((String c s =? suf) || endswith s suf).
    rewrite orb_true_iff, IH, String.eqb_eq. split.
    + intros [<- | [p ->]]; [now exists "" | now exists (String c p)].
    + intros [p Hp]. destruct p as [|c' p]; simpl in Hp.
      * now left.
      * right. exists p. congruence.
Qed.

Lemma drop_last_snoc (p : string) (c : ascii) :
  drop_last (p ++ String c "")%string = p.
Proof.
  induction p as [|c' p IH]; simpl; [reflexivity|].
  rewrite IH. destruct p; reflexivity.
Qed.

Lemma lower_ascii_idem (c : ascii) : lower_ascii (lower_ascii c) = lower_ascii c.
Proof.
  destruct c as [[] [] [] [] [] [] [] []]; reflexivity.
Qed.

Lemma lower_idem (s : string) : lower (lower s) = lower s.
Proof.
  induction s as [|c s IH]; simpl; [reflexivity|].
  now rewrite lower_ascii_idem, IH.
Qed.

Lemma length_append (a b : string) :
  String.length (a ++ b)%string = String.length a + String.length b.
Proof. induction a; simpl; congruence. Qed.

End StringFacts.

Section DictFacts.

Lemma od_get_set_same (k : string) (v : value) (d : dict) :
  od_get k (od_set k v d) = Some v.
Proof.
  induction d as [|[k' v'] d IH]; simpl.
  - now rewrite String.eqb_refl.
  - destruct (k' =? k) eqn:E; simpl; rewrite E; auto.
Qed.

Lemma od_get_set_other (k k' : string) (v : value) (d : dict) :
  k' <> k -> od_get k (od_set k' v d) = od_get k d.
Proof.
  intros Hne. induction d as [|[k0 v0] d IH]; simpl.
  - apply String.eqb_neq in Hne. now rewrite Hne.
  - destruct (k0 =? k') eqn:E; simpl.
    + apply String.eqb_eq in E. subst k0.
      apply String.eqb_neq in Hne. now rewrite Hne.
    + now rewrite IH.
Qed.

Lemma od_keys_set (k k' : string) (v : value) (d : dict) :
  In k' (od_keys (od_set k v d)) <-> k' = k \/ In k' (od_keys d).
Proof.
  unfold od_keys. induction d as [|[k0 v0] d IH]; simpl.
  - intuition.
  - destruct (k0 =? k) eqn:E; simpl.
    + apply String.eqb_eq in E. subst. intuition.
    + rewrite IH. intuition.
Qed.

Lemma od_get_some_key (k : string) (d : dict) :
  In k (od_keys d) <-> exists v, od_get k d = Some v.
Proof.
  unfold od_keys. induction d as [|[k0 v0] d IH]; simpl.
  - split; [tauto | intros [v Hv]; discriminate].
  - destruct (k0 =? k) eqn:E.
    + apply String.eqb_eq in E. split; eauto.
    + apply String.eqb_neq in E. rewrite IH. intuition.
Qed.

Lemma od_keys_of_pairs (l : list (string * value)) (k : string) :
  In k (od_keys (od_of_pairs l)) <-> In k (map fst l).
Proof.
  unfold od_of_pairs.
  assert (G : forall d, In k (od_keys (fold_left
              (fun d kv => od_set (fst kv) (snd kv) d) l d))
              <-> In k (map fst l) \/ In k (od_keys d)).
  { induction l as [|[k0 v0] l IH]; intros d; simpl.
    - tauto.
    - rewrite IH, od_keys_set. simpl. intuition. }
  rewrite G. simpl. tauto.
Qed.

End DictFacts.

(** Invariants of the loop over the columns are proved column by column. *)
Lemma loop_invariant (step : loop_state -> column -> loop_state)
    (P : list column -> loop_state -> Prop) :
  P [] loop_init ->
  (forall l st c, P l st -> P (l ++ [c]) (step st c)) ->
  forall columns, P columns (fold_left step columns loop_init).
Proof.
  intros H0 Hstep columns.
  induction columns as [|c l IH] using rev_ind; [exact H0|].
  rewrite fold_left_app. simpl. now apply Hstep.
Qed.

Lemma NoDup_names_inj (columns : list column) (c c' : column) :
  NoDup (map col_name columns) -> In c columns -> In c' columns ->
  col_name c = col_name c' -> c = c'.
Proof.
  induction columns as [|x l IH]; simpl; [tauto|].
  intros Hnd Hc Hc' Heq. inversion Hnd as [|? ? Hnotin Hnd']; subst.
  destruct Hc as [->|Hc], Hc' as [->|Hc']; auto.
  - exfalso. apply Hnotin. rewrite Heq. now apply in_map.
  - exfalso. apply Hnotin. rewrite <- Heq. now apply in_map.
Qed.

(* ================================================================== *)
(** ** The naming transformer *)
(* ================================================================== *)

(** C9.  For every table name [t], [resource_singular t] is [t] without its
    last character when [t] ends with the letter s, and [t] itself when it
    does not; so "tasks" becomes "task" and "status" becomes "statu".  The
    transform is a function of the name alone. *)
Theorem resource_singular_strips_one_s (t : string) :
  ((exists p, t = (p ++ "s")%string /\ resource_singular t = p)
   \/ ((forall p, t <> (p ++ "s")%string) /\ resource_singular t = t))
  /\ resource_singular "tasks" = "task"
  /\ resource_singular "status" = "statu".
Proof.
  split; [|split; reflexivity].
  unfold resource_singular.
  destruct (endswith t "s") eqn:E.
  - left. apply endswith_iff in E. destruct E as [p ->].
    exists p. split; [reflexivity | apply drop_last_snoc].
  - right. split; [|reflexivity].
    intros p Hp.
    assert (endswith t "s" = true) by (apply endswith_iff; eauto).
    congruence.
Qed.

(* ================================================================== *)
(** ** The type mapper *)
(* ================================================================== *)

Lemma bigint_is_int (s : string) :
  contains "bigint" s = true -> contains "int" s = true.
Proof. apply contains_trans. reflexivity. Qed.

Ltac split_rules :=
  repeat match goal with
         | |- context [if ?b then _ else _] => destruct b
         end.

(** C3.  Both type mappers are total functions of the lower-cased type
    string; the rules are tried in order and the first match decides: a type
    containing "bigint" is an integer of format int64, "tinyint(1)" is a
    boolean for the per-table generator and an integer for the
    single-document generator, and every input gets exactly one type. *)
Theorem type_mapper_first_match (s : string) :
  (Basic.mysql_type_to_openapi_type s = Basic.mysql_type_to_openapi_type (lower s)
   /\ Enhanced.mysql_type_to_openapi_type s
      = Enhanced.mysql_type_to_openapi_type (lower s))
  /\ (contains "bigint" (lower s) = true ->
      Basic.mysql_type_to_openapi_type s
        = [("type", VStr "integer"); ("format", VStr "int64")]
      /\ Enhanced.mysql_type_to_openapi_type s
        = [("type", VStr "integer"); ("format", VStr "int64")])
  /\ Enhanced.mysql_type_to_openapi_type "tinyint(1)" = [("type", VStr "boolean")]
  /\ Basic.mysql_type_to_openapi_type "tinyint(1)"
       = [("type", VStr "integer"); ("format", VStr "int32")]
  /\ (exists! t, od_get "type" (Basic.mysql_type_to_openapi_type s) = Some (VStr t))
  /\ (exists! t, od_get "type" (Enhanced.mysql_type_to_openapi_type s) = Some (VStr t)).
Proof.
  split; [|split; [|split; [|split; [|split]]]].
  - unfold Basic.mysql_type_to_openapi_type, Enhanced.mysql_type_to_openapi_type.
    now rewrite !lower_idem.
  - intros Hbig. pose proof (bigint_is_int _ Hbig) as Hint.
    unfold Basic.mysql_type_to_openapi_type, Enhanced.mysql_type_to_openapi_type.
    cbv zeta. rewrite Hint, Hbig. split; reflexivity.
  - reflexivity.
  - reflexivity.
  - unfold Basic.mysql_type_to_openapi_type. cbv zeta. split_rules;
      (eexists; split; [reflexivity | intros t' Ht'; simpl in Ht'; congruence]).
  - unfold Enhanced.mysql_type_to_openapi_type. cbv zeta. split_rules;
      (eexists; split; [reflexivity | intros t' Ht'; simpl in Ht'; congruence]).
Qed.

Lemma type_mapper_first_match_witness :
  Basic.mysql_type_to_openapi_type "BIGINT(20) unsigned"
    = [("type", VStr "integer"); ("format", VStr "int64")]
  /\ Enhanced.mysql_type_to_openapi_type "BIGINT(20) unsigned"
    = [("type", VStr "integer"); ("format", VStr "int64")].
Proof.
  apply (proj1 (proj2 (type_mapper_first_match "BIGINT(20) unsigned"))).
  reflexivity.
Defined.

(* ================================================================== *)
(** ** The write schema *)
(* ================================================================== *)

Section WriteSchema.

Variable table_name : string.

Notation basic_new columns := (new_table_schema (Basic.build_schemas columns)).
Notation enhanced_new columns :=
  (new_table_schema (Enhanced.build_schemas table_name columns)).

Lemma In_snoc {A : Type} (x y : A) (l : list A) :
  In x (l ++ [y]) <-> In x l \/ x = y.
Proof. rewrite in_app_iff. simpl. intuition. Qed.

(** A primary-key column is marked read-only by the per-table generator. *)
Lemma enhanced_pri_readOnly (pk : option string) (c : column) :
  is_pri c = true ->
  od_get_truthy "readOnly" (Enhanced.decorate table_name pk c) = true.
Proof.
  unfold is_pri, Enhanced.decorate. cbv zeta. intros ->.
  unfold od_get_truthy.
  rewrite od_get_set_other by discriminate.
  now rewrite od_get_set_same.
Qed.

Lemma basic_required_subset (columns : list column) :
  incl (required (basic_new columns)) (od_keys (properties (basic_new columns))).
Proof.
  unfold Basic.build_schemas.
  apply (loop_invariant Basic.column_step
           (fun _ st => incl (required (new_table_schema st))
                             (od_keys (properties (new_table_schema st))))).
  - intros n [].
  - intros l st c IH. unfold Basic.column_step. cbv zeta.
    destruct (negb (is_pri c && _)); simpl; [|exact IH].
    destruct (negb (is_nullable c) && _); intros n Hn; apply od_keys_set.
    + apply In_snoc in Hn. destruct Hn as [Hn| ->]; auto.
    + auto.
Qed.

Lemma enhanced_required_subset (columns : list column) :
  incl (required (enhanced_new columns)) (od_keys (properties (enhanced_new columns))).
Proof.
  unfold Enhanced.build_schemas.
  apply (loop_invariant (Enhanced.column_step table_name)
           (fun _ st => incl (required (new_table_schema st))
                             (od_keys (properties (new_table_schema st))))).
  - intros n [].
  - intros l st c IH. unfold Enhanced.column_step. cbv zeta.
    destruct (negb (is_pri c && _) && _); simpl; [|exact IH].
    destruct (negb (is_nullable c) && _); intros n Hn; apply od_keys_set.
    + apply In_snoc in Hn. destruct Hn as [Hn| ->]; auto.
    + auto.
Qed.

(** Whatever is required on write comes from a column that is not a
    primary key. *)
Lemma basic_required_not_pri (columns : list column) (n : string) :
  In n (required (basic_new columns)) ->
  exists c, In c columns /\ col_name c = n /\ is_pri c = false.
Proof.
  unfold Basic.build_schemas. revert n.
  apply (loop_invariant Basic.column_step
           (fun l st => forall n, In n (required (new_table_schema st)) ->
              exists c, In c l /\ col_name c = n /\ is_pri c = false)).
  - intros n [].
  - intros l st c IH n. unfold Basic.column_step. cbv zeta.
    assert (Hold : In n (required (new_table_schema st)) ->
                   exists c0, In c0 (l ++ [c]) /\ col_name c0 = n /\ is_pri c0 = false).
    { intros H. destruct (IH n H) as [c0 [Hin Hc0]].
      exists c0. split; [apply In_snoc; auto | exact Hc0]. }
    destruct (negb (is_pri c && _)); simpl; [|exact Hold].
    fold (is_pri c). destruct (is_pri c) eqn:Epri.
    + rewrite andb_false_r. exact Hold.
    + destruct (negb (is_nullable c)); simpl; [|exact Hold].
      intros Hn. apply In_snoc in Hn. destruct Hn as [Hn| ->]; [auto|].
      exists c. split; [apply In_snoc; auto | auto].
Qed.

Lemma enhanced_required_not_pri (columns : list column) (n : string) :
  In n (required (enhanced_new columns)) ->
  exists c, In c columns /\ col_name c = n /\ is_pri c = false.
Proof.
  unfold Enhanced.build_schemas. revert n.
  apply (loop_invariant (Enhanced.column_step table_name)
           (fun l st => forall n, In n (required (new_table_schema st)) ->
              exists c, In c l /\ col_name c = n /\ is_pri c = false)).
  - intros n [].
  - intros l st c IH n. unfold Enhanced.column_step. cbv zeta.
    assert (Hold : In n (required (new_table_schema st)) ->
                   exists c0, In c0 (l ++ [c]) /\ col_name c0 = n /\ is_pri c0 = false).
    { intros H. destruct (IH n H) as [c0 [Hin Hc0]].
      exists c0. split; [apply In_snoc; auto | exact Hc0]. }
    destruct (negb (is_pri c && _) && _); simpl; [|exact Hold].
    fold (is_pri c). destruct (is_pri c) eqn:Epri.
    + rewrite andb_false_r. exact Hold.
    + destruct (negb (is_nullable c)); simpl; [|exact Hold].
      intros Hn. apply In_snoc in Hn. destruct Hn as [Hn| ->]; [auto|].
      exists c. split; [apply In_snoc; auto | auto].
Qed.

(** The per-table generator keeps every primary-key column out of the
    write schema's properties. *)
Lemma enhanced_properties_not_pri (columns : list column) (n : string) :
  In n (od_keys (properties (enhanced_new columns))) ->
  exists c, In c columns /\ col_name c = n /\ is_pri c = false.
Proof.
  unfold Enhanced.build_schemas. revert n.
  apply (loop_invariant (Enhanced.column_step table_name)
           (fun l st => forall n, In n (od_keys (properties (new_table_schema st))) ->
              exists c, In c l /\ col_name c = n /\ is_pri c = false)).
  - intros n [].
  - intros l st c IH n. unfold Enhanced.column_step. cbv zeta.
    assert (Hold : In n (od_keys (properties (new_table_schema st))) ->
                   exists c0, In c0 (l ++ [c]) /\ col_name c0 = n /\ is_pri c0 = false).
    { intros H. destruct (IH n H) as [c0 [Hin Hc0]].
      exists c0. split; [apply In_snoc; auto | exact Hc0]. }
    destruct (is_pri c) eqn:Epri.
    + rewrite (enhanced_pri_readOnly _ c Epri). rewrite andb_false_r. exact Hold.
    + destruct (_ && _); simpl; [|exact Hold].
      intros Hn. apply od_keys_set in Hn. destruct Hn as [->|Hn]; [|auto].
      exists c. split; [apply In_snoc; auto | auto].
Qed.

(** The single-document generator keeps an auto-increment primary key out
    of the write schema's properties. *)
Lemma basic_properties_not_auto_pri (columns : list column) (n : string) :
  In n (od_keys (properties (basic_new columns))) ->
  exists c, In c columns /\ col_name c = n
            /\ is_pri c && is_auto_increment c = false.
Proof.
  unfold Basic.build_schemas. revert n.
  apply (loop_invariant Basic.column_step
           (fun l st => forall n, In n (od_keys (properties (new_table_schema st))) ->
              exists c, In c l /\ col_name c = n
                        /\ is_pri c && is_auto_increment c = false)).
  - intros n [].
  - intros l st c IH n. unfold Basic.column_step. cbv zeta.
    assert (Hold : In n (od_keys (properties (new_table_schema st))) ->
                   exists c0, In c0 (l ++ [c]) /\ col_name c0 = n
                              /\ is_pri c0 && is_auto_increment c0 = false).
    { intros H. destruct (IH n H) as [c0 [Hin Hc0]].
      exists c0. split; [apply In_snoc; auto | exact Hc0]. }
    destruct (is_pri c) eqn:Epri; destruct (is_auto_increment c) eqn:Eauto;
      simpl; try exact Hold;
      try (destruct (has_auto_increment st); simpl; try exact Hold);
      intros Hn; apply od_keys_set in Hn; destruct Hn as [->|Hn]; auto;
      exists c; rewrite Epri, ?Eauto; (split; [apply In_snoc; auto | auto]).
Qed.

(** With no auto-increment primary key in the table, the single-document
    generator puts every column into the write schema's properties. *)
Lemma basic_properties_all (columns : list column) :
  (forall c, In c columns -> is_pri c = true -> is_auto_increment c = false) ->
  forall c, In c columns ->
    In (col_name c) (od_keys (properties (basic_new columns))).
Proof.
  unfold Basic.build_schemas.
  apply (loop_invariant Basic.column_step
           (fun l st =>
              (forall c, In c l -> is_pri c = true -> is_auto_increment c = false) ->
              has_auto_increment st = false
              /\ forall c, In c l ->
                   In (col_name c) (od_keys (properties (new_table_schema st))))).
  - intros _. split; [reflexivity | intros c []].
  - intros l st c IH Hall.
    destruct IH as [Hflag Hkeys].
    { intros c0 Hc0. apply Hall. apply In_snoc; auto. }
    assert (Hc : is_pri c = true -> is_auto_increment c = false).
    { apply Hall. apply In_snoc; auto. }
    unfold Basic.column_step. cbv zeta. rewrite Hflag.
    destruct (is_pri c) eqn:Epri; [rewrite (Hc eq_refl)|]; simpl;
      (split; [reflexivity|]);
      intros c0 Hc0; apply od_keys_set; apply In_snoc in Hc0;
      destruct Hc0 as [Hc0| ->]; auto.
Qed.

End WriteSchema.

(** C2.  In both generators every name in the write schema's required list
    is a key of the write schema's properties: a column left out of the
    write schema is never required by it. *)
Theorem write_required_within_properties (table_name : string)
    (columns : list column) (n : string) :
  (In n (required (new_table_schema (Basic.build_schemas columns))) ->
   In n (od_keys (properties (new_table_schema (Basic.build_schemas columns)))))
  /\ (In n (required (new_table_schema (Enhanced.build_schemas table_name columns))) ->
      In n (od_keys (properties
                       (new_table_schema (Enhanced.build_schemas table_name columns))))).
Proof.
  split.
  - apply basic_required_subset.
  - apply enhanced_required_subset.
Qed.

Lemma write_required_within_properties_witness :
  In "email"
     (od_keys (properties (new_table_schema (Enhanced.build_schemas "users"
        [mkColumn "id" "int(11)" "NO" "PRI" None (Some "auto_increment");
         mkColumn "email" "varchar(255)" "NO" "" None (Some "");
         mkColumn "created_at" "timestamp" "NO" "" None (Some "")])))).
Proof.
  apply (proj2 (write_required_within_properties "users"
    [mkColumn "id" "int(11)" "NO" "PRI" None (Some "auto_increment");
     mkColumn "email" "varchar(255)" "NO" "" None (Some "");
     mkColumn "created_at" "timestamp" "NO" "" None (Some "")] "email")).
  vm_compute. left. reflexivity.
Defined.

(** C1, as the code has it.  In a table with distinct column names, a
    primary-key column is never listed in the write schema's required list,
    by either generator.  Both generators leave an auto-increment primary
    key out of the write schema's properties.  The single-document
    generator keeps a primary key among the properties when the table has
    no auto-increment primary key. *)
Theorem write_schema_primary_key (table_name : string) (columns : list column)
    (c : column) :
  NoDup (map col_name columns) -> In c columns -> is_pri c = true ->
  ~ In (col_name c) (required (new_table_schema (Basic.build_schemas columns)))
  /\ ~ In (col_name c)
         (required (new_table_schema (Enhanced.build_schemas table_name columns)))
  /\ (is_auto_increment c = true ->
      ~ In (col_name c)
          (od_keys (properties
             (new_table_schema (Enhanced.build_schemas table_name columns))))
      /\ ~ In (col_name c)
             (od_keys (properties (new_table_schema (Basic.build_schemas columns)))))
  /\ ((forall c', In c' columns -> is_pri c' = true -> is_auto_increment c' = false) ->
      In (col_name c)
         (od_keys (properties (new_table_schema (Basic.build_schemas columns))))).
Proof.
  intros Hnd Hin Hpri.
  assert (Hsame : forall c', In c' columns -> col_name c' = col_name c -> c' = c).
  { intros c' Hc' Heq. now apply (NoDup_names_inj columns). }
  split; [|split; [|split]].
  - intros H. apply basic_required_not_pri in H.
    destruct H as [c' [Hc' [Hn Hp]]]. rewrite (Hsame c' Hc' Hn) in Hp. congruence.
  - intros H. apply enhanced_required_not_pri in H.
    destruct H as [c' [Hc' [Hn Hp]]]. rewrite (Hsame c' Hc' Hn) in Hp. congruence.
  - intros Hauto. split.
    + intros H. apply enhanced_properties_not_pri in H.
      destruct H as [c' [Hc' [Hn Hp]]]. rewrite (Hsame c' Hc' Hn) in Hp. congruence.
    + intros H. apply basic_properties_not_auto_pri in H.
      destruct H as [c' [Hc' [Hn Hp]]]. rewrite (Hsame c' Hc' Hn) in Hp.
      rewrite Hpri, Hauto in Hp. discriminate.
  - intros Hall. now apply basic_properties_all.
Qed.

Lemma write_schema_primary_key_witness :
  (~ In "code" (required (new_table_schema (Basic.build_schemas natural_key_columns)))
   /\ In "code"
         (od_keys (properties
            (new_table_schema (Basic.build_schemas natural_key_columns)))))
  /\ (~ In "id"
         (od_keys (properties
            (new_table_schema (Enhanced.build_schemas "users" users_columns))))
      /\ ~ In "id"
            (od_keys (properties
               (new_table_schema (Basic.build_schemas users_columns))))).
Proof.
  split.
  - assert (Hnd : NoDup (map col_name natural_key_columns)).
    { simpl. repeat constructor; simpl; intuition discriminate. }
    assert (Hin : In (mkColumn "code" "varchar(10)" "NO" "PRI" None (Some ""))
                     natural_key_columns) by (left; reflexivity).
    destruct (write_schema_primary_key "codes" natural_key_columns _ Hnd Hin eq_refl)
      as [H1 [_ [_ H5]]].
    split; [exact H1|].
    apply H5. intros c' [<-|[<-|[]]]; intros; reflexivity.
  - assert (Hnd : NoDup (map col_name users_columns)).
    { simpl. repeat constructor; simpl; intuition discriminate. }
    assert (Hin : In (mkColumn "id" "int(11)" "NO" "PRI" None (Some "auto_increment"))
                     users_columns) by (left; reflexivity).
    destruct (write_schema_primary_key "users" users_columns _ Hnd Hin eq_refl)
      as [_ [_ [H3 _]]].
    apply H3. reflexivity.
Defined.

(** C1 as worded fails: the primary key "code" is not auto-increment, yet
    neither generator requires it on write, and the per-table generator
    does not even accept it. *)
Lemma write_schema_primary_key_counterexample :
  exists c,
    In c natural_key_columns /\ is_pri c = true /\ is_auto_increment c = false
    /\ ~ In (col_name c)
           (required (new_table_schema (Basic.build_schemas natural_key_columns)))
    /\ ~ In (col_name c)
           (required (new_table_schema
              (Enhanced.build_schemas "codes" natural_key_columns)))
    /\ ~ In (col_name c)
           (od_keys (properties (new_table_schema
              (Enhanced.build_schemas "codes" natural_key_columns)))).
Proof.
  exists (mkColumn "code" "varchar(10)" "NO" "PRI" None (Some "")).
  split; [left; reflexivity|].
  split; [reflexivity|]. split; [reflexivity|].
  vm_compute. intuition discriminate.
Qed.

(* ================================================================== *)
(** ** The primary key found by the loop *)
(* ================================================================== *)

Section PrimaryKey.

Variable step : loop_state -> column -> loop_state.

Hypothesis step_pk : forall st c,
  primary_key_column (step st c)
  = if is_pri c then Some (col_name c) else primary_key_column st.

(** The loop remembers the last column whose key is PRI. *)
Lemma loop_primary_key (columns : list column) :
  match primary_key_column (fold_left step columns loop_init) with
  | Some pk => exists c, In c columns /\ is_pri c = true /\ col_name c = pk
  | None => forall c, In c columns -> is_pri c = false
  end.
Proof.
  apply (loop_invariant step
           (fun l st =>
              match primary_key_column st with
              | Some pk => exists c, In c l /\ is_pri c = true /\ col_name c = pk
              | None => forall c, In c l -> is_pri c = false
              end)).
  - intros c [].
  - intros l st c IH. rewrite step_pk.
    destruct (is_pri c) eqn:Epri.
    + exists c. split; [apply in_or_app; right; left; reflexivity | auto].
    + destruct (primary_key_column st) as [pk|].
      * destruct IH as [c0 [Hin H0]]. exists c0.
        split; [apply in_or_app; auto | exact H0].
      * intros c0 Hc0. apply in_app_or in Hc0.
        destruct Hc0 as [Hc0|[<-|[]]]; auto.
Qed.

End PrimaryKey.

Lemma filter_name_nonempty (columns : list column) (pk : string) :
  (exists c, In c columns /\ col_name c = pk) ->
  exists c0 rest, filter (fun c => col_name c =? pk) columns = c0 :: rest.
Proof.
  intros [c [Hin Hname]].
  assert (Hf : In c (filter (fun c => col_name c =? pk) columns)).
  { apply filter_In. split; [exact Hin | now apply String.eqb_eq]. }
  destruct (filter _ columns) as [|c0 rest]; [destruct Hf | eauto].
Qed.

(* ================================================================== *)
(** ** The shape of the generated documents *)
(* ================================================================== *)

Lemma item_key_not_root (pk : string) : ("/" =? Enhanced.item_key pk) = false.
Proof. reflexivity. Qed.

Lemma append_neq_self (a b : string) : b <> "" -> a <> (a ++ b)%string.
Proof.
  intros Hb H. apply (f_equal String.length) in H.
  rewrite length_append in H. destruct b; [congruence | simpl in H; lia].
Qed.

Lemma basic_item_key_not_collection (table_name pk : string) :
  (Basic.collection_key table_name =? Basic.item_key table_name pk) = false.
Proof.
  apply String.eqb_neq. unfold Basic.collection_key, Basic.item_key.
  intros H. injection H as H. revert H. apply append_neq_self. discriminate.
Qed.

(** The per-table generator always returns a document: the collection path
    alone when the loop found no primary key (or one with an empty name),
    the collection path and the item path otherwise. *)
Lemma enhanced_spec_shape (table_name : string) (columns : list column) :
  let st := Enhanced.build_schemas table_name columns in
  let collection :=
    Enhanced.collection_path table_name
      (Enhanced.add_smart_query_params columns table_name) in
  (exists pk native c,
      In c columns /\ is_pri c = true /\ col_name c = pk /\ pk <> ""
      /\ Enhanced.create_enhanced_individual_table_spec table_name columns
         = Ok (Enhanced.document table_name st
                 [("/", collection);
                  (Enhanced.item_key pk,
                   Enhanced.item_path table_name pk (Enhanced.pk_schema native))]))
  \/ (((forall c, In c columns -> is_pri c = false)
       \/ exists c, In c columns /\ is_pri c = true /\ col_name c = "")
      /\ Enhanced.create_enhanced_individual_table_spec table_name columns
         = Ok (Enhanced.document table_name st [("/", collection)])).
Proof.
  intros st collection.
  unfold Enhanced.create_enhanced_individual_table_spec.
  fold st. cbv zeta.
  pose proof (loop_primary_key (Enhanced.column_step table_name)
                (fun _ _ => eq_refl) columns) as Hpk.
  fold (Enhanced.build_schemas table_name columns) in Hpk. fold st in Hpk.
  destruct (primary_key_column st) as [pk|].
  - destruct Hpk as [c [Hin [Hpri Hname]]].
    unfold truthy_str. destruct (pk =? "") eqn:E; simpl negb; cbv iota.
    + apply String.eqb_eq in E. subst pk. right. split; [|reflexivity].
      right. eauto.
    + left. apply String.eqb_neq in E.
      destruct (filter_name_nonempty columns pk) as [c0 [rest Hf]]; [eauto|].
      unfold Enhanced.pk_native_type. rewrite Hf.
      exists pk, (lower (col_type c0)), c.
      repeat (split; [assumption|]).
      reflexivity.
  - right. split; [left; exact Hpk | reflexivity].
Qed.

(** One table of the single-document generator: when [DESCRIBE] answers
    with rows, the body of the [try] runs to its end and leaves the two
    schemas, the collection path, the item path if there is a primary key,
    and the table's name in [processed_tables]. *)
Lemma basic_process_shape (t : table_input) (c0 : column) (rest : list column)
    (s : Basic.run_state) :
  tbl_describe t = Ok (c0 :: rest) ->
  let columns := c0 :: rest in
  let table_name := tbl_name t in
  let st := Basic.build_schemas columns in
  let s0 :=
    Basic.set_path (Basic.collection_key table_name) (Basic.collection_path table_name)
      (Basic.set_schema (Basic.new_schema_name table_name)
         (schema_value (new_table_schema st))
         (Basic.set_schema (Basic.schema_name table_name)
            (schema_value (table_schema st)) s)) in
  (exists pk native c,
      In c columns /\ is_pri c = true /\ col_name c = pk /\ pk <> ""
      /\ Basic.process_table t s
         = (Basic.mark_processed table_name
              (Basic.set_path (Basic.item_key table_name pk)
                 (Basic.item_path table_name pk (Basic.pk_schema native)) s0),
            Ok tt))
  \/ (((forall c, In c columns -> is_pri c = false)
       \/ exists c, In c columns /\ is_pri c = true /\ col_name c = "")
      /\ Basic.process_table t s = (Basic.mark_processed table_name s0, Ok tt)).
Proof.
  intros Hd columns table_name st s0.
  subst s0 st table_name columns.
  unfold Basic.process_table, bind, lift, modify, ret. rewrite Hd.
  cbv beta iota zeta.
  pose proof (loop_primary_key Basic.column_step (fun _ _ => eq_refl) (c0 :: rest))
    as Hpk.
  fold (Basic.build_schemas (c0 :: rest)) in Hpk.
  destruct (primary_key_column (Basic.build_schemas (c0 :: rest))) as [pk|].
  - destruct Hpk as [c [Hin [Hpri Hname]]].
    unfold truthy_str. destruct (pk =? "") eqn:E; simpl negb; cbv iota.
    + apply String.eqb_eq in E. subst pk. right. split; [|reflexivity].
      right. eauto.
    + left. apply String.eqb_neq in E.
      destruct (filter_name_nonempty (c0 :: rest) pk) as [c1 [rest1 Hf]]; [eauto|].
      unfold Basic.pk_native_type. rewrite Hf.
      exists pk, (lower (col_type c1)), c.
      repeat (split; [assumption|]).
      reflexivity.
  - right. split; [left; exact Hpk | reflexivity].
Qed.

Lemma vpath_cons (k : string) (ks : list string) (v : value) :
  vpath (k :: ks) v
  = match vget k v with Some x => vpath ks x | None => None end.
Proof. reflexivity. Qed.

Lemma vpath_one (k : string) (d : dict) : vpath [k] (VDict d) = od_get k d.
Proof. simpl. now destruct (od_get k d). Qed.

Lemma enhanced_schema_lookup (table_name : string) (st : loop_state)
    (paths : dict) (k : string) :
  vpath ["components"; "schemas"; k] (Enhanced.document table_name st paths)
  = od_get k (Enhanced.component_schemas table_name st).
Proof.
  change (vpath ["components"; "schemas"; k] (Enhanced.document table_name st paths))
    with (vpath [k] (VDict (Enhanced.component_schemas table_name st))).
  apply vpath_one.
Qed.

Lemma enhanced_paths_lookup (table_name : string) (st : loop_state)
    (paths : dict) (k : string) (ks : list string) :
  vpath ("paths" :: k :: ks) (Enhanced.document table_name st paths)
  = match od_get k paths with Some x => vpath ks x | None => None end.
Proof. reflexivity. Qed.

Lemma enhanced_create_schema_lookup (table_name : string) (st : loop_state) :
  od_get (Enhanced.new_schema_name table_name)
         (Enhanced.component_schemas table_name st)
  = Some (schema_value (new_table_schema st)).
Proof.
  unfold Enhanced.component_schemas, od_of_pairs. cbn [fold_left fst snd].
  rewrite od_get_set_other by (unfold Enhanced.new_schema_name; discriminate).
  rewrite od_get_set_other
    by (unfold Enhanced.new_schema_name, Enhanced.update_schema_name; discriminate).
  apply od_get_set_same.
Qed.

Lemma enhanced_update_schema_lookup (table_name : string) (st : loop_state) :
  od_get (Enhanced.update_schema_name table_name)
         (Enhanced.component_schemas table_name st)
  = Some (schema_value (Enhanced.update_table_schema (new_table_schema st))).
Proof.
  unfold Enhanced.component_schemas, od_of_pairs. cbn [fold_left fst snd].
  rewrite od_get_set_other by (unfold Enhanced.update_schema_name; discriminate).
  apply od_get_set_same.
Qed.

(** C10.  In the document of the per-table generator the Update schema has
    the property map of the Create schema and an empty required list, and
    every PATCH operation of the document takes the Update schema as its
    request body. *)
Theorem update_schema_is_create_schema_all_optional (table_name : string)
    (columns : list column) :
  exists doc props req,
    Enhanced.create_enhanced_individual_table_spec table_name columns = Ok doc
    /\ vpath ["components"; "schemas"; Enhanced.new_schema_name table_name] doc
       = Some (VDict [("type", VStr "object");
                      ("properties", VDict props);
                      ("required", VList req)])
    /\ vpath ["components"; "schemas"; Enhanced.update_schema_name table_name] doc
       = Some (VDict [("type", VStr "object");
                      ("properties", VDict props);
                      ("required", VList [])])
    /\ forall path,
         vpath ["paths"; path; "patch"] doc <> None ->
         vpath ["paths"; path; "patch"; "requestBody"; "content";
                "application/json"; "schema"; "$ref"] doc
         = Some (VStr ("#/components/schemas/"
                         ++ Enhanced.update_schema_name table_name)).
Proof.
  set (st := Enhanced.build_schemas table_name columns).
  assert (Hroot : forall qp,
             vpath ["patch"] (Enhanced.collection_path table_name qp) = None)
    by reflexivity.
  destruct (enhanced_spec_shape table_name columns)
    as [[pk [native [c [_ [_ [_ [_ Hdoc]]]]]]] | [_ Hdoc]];
    fold st in Hdoc; rewrite Hdoc;
    eexists _, (properties (new_table_schema st)),
               (map VStr (required (new_table_schema st)));
    (split; [reflexivity|]);
    rewrite !enhanced_schema_lookup,
            enhanced_create_schema_lookup, enhanced_update_schema_lookup;
    (split; [reflexivity|]); (split; [reflexivity|]);
    intros path; rewrite !enhanced_paths_lookup; cbn [od_get].
  - destruct ("/" =? path).
    + rewrite Hroot. congruence.
    + destruct (Enhanced.item_key pk =? path); [reflexivity | congruence].
  - destruct ("/" =? path); [rewrite Hroot|]; congruence.
Qed.

Lemma update_schema_is_create_schema_all_optional_witness :
  exists doc,
    Enhanced.create_enhanced_individual_table_spec "users" users_columns = Ok doc
    /\ vpath ["paths"; "/{id}"; "patch"; "requestBody"; "content";
              "application/json"; "schema"; "$ref"] doc
       = Some (VStr "#/components/schemas/UpdateUser").
Proof.
  destruct (update_schema_is_create_schema_all_optional "users" users_columns)
    as [doc [props [req [Hdoc [_ [_ Hpatch]]]]]].
  exists doc. split; [exact Hdoc|].
  apply (Hpatch "/{id}").
  vm_compute in Hdoc. injection Hdoc as <-. vm_compute. discriminate.
Defined.

(* ================================================================== *)
(** ** The query-parameter advisor *)
(* ================================================================== *)

(** C5.  A table whose lower-cased name contains a system-table fragment
    gets the empty parameter list whatever its columns are and whatever else
    its name matches, and its collection GET carries no [parameters]; so it
    is for [audit_log]. *)
Theorem system_tables_get_no_parameters (table_name : string)
    (columns : list column) :
  (Enhanced.any_in Enhanced.system_tables (lower table_name) = true ->
   Enhanced.should_generate_query_params_individual table_name = false
   /\ Enhanced.add_smart_query_params columns table_name = []
   /\ vget "parameters"
        (Enhanced.get_endpoint table_name
           (Enhanced.add_smart_query_params columns table_name)) = None)
  /\ Enhanced.add_smart_query_params columns "audit_log" = []
  /\ Enhanced.add_smart_query_params columns "audit_users" = [].
Proof.
  split; [|split; reflexivity].
  intros Hsys.
  assert (Hno : Enhanced.should_generate_query_params_individual table_name = false).
  { unfold Enhanced.should_generate_query_params_individual. cbv zeta.
    now rewrite Hsys. }
  assert (Hnil : Enhanced.add_smart_query_params columns table_name = []).
  { unfold Enhanced.add_smart_query_params. now rewrite Hno. }
  split; [exact Hno | split; [exact Hnil|]].
  rewrite Hnil. reflexivity.
Qed.

Lemma system_tables_get_no_parameters_witness :
  Enhanced.should_generate_query_params_individual "Users_Backup_2024" = false
  /\ Enhanced.add_smart_query_params
       [mkColumn "name" "varchar(50)" "NO" "" None (Some "")] "Users_Backup_2024" = []
  /\ vget "parameters"
       (Enhanced.get_endpoint "Users_Backup_2024"
          (Enhanced.add_smart_query_params
             [mkColumn "name" "varchar(50)" "NO" "" None (Some "")]
             "Users_Backup_2024")) = None.
Proof.
  apply (proj1 (system_tables_get_no_parameters "Users_Backup_2024"
                  [mkColumn "name" "varchar(50)" "NO" "" None (Some "")])).
  reflexivity.
Defined.

(** C4, as the code has it.  In the per-table generator, for a table the
    advisor classifies as searchable and whatever its columns, the
    parameters of the collection GET are the table-specific filters, then
    the date-range filters, then the text search, then exactly [page],
    [limit], [sort_by], [sort_order]; the list is not empty.  The
    single-document generator has no advisor: its collection GET always
    carries [limit] and [offset]. *)
Theorem searchable_parameters_end_with_paging (table_name : string)
    (columns : list column) :
  Enhanced.should_generate_query_params_individual table_name = true ->
  (exists doc filters page limit sort_by sort_order,
      Enhanced.create_enhanced_individual_table_spec table_name columns = Ok doc
      /\ vpath ["paths"; "/"; "get"; "parameters"] doc
         = Some (VList (filters ++ [page; limit; sort_by; sort_order]))
      /\ Enhanced.add_smart_query_params columns table_name
         = filters ++ [page; limit; sort_by; sort_order]
      /\ filters
         = Enhanced.table_specific_params (lower table_name)
             (map (fun c => lower (col_name c)) columns)
           ++ Enhanced.date_range_params (map (fun c => lower (col_name c)) columns)
           ++ Enhanced.search_params columns
      /\ map (vget "name") [page; limit; sort_by; sort_order]
         = [Some (VStr "page"); Some (VStr "limit");
            Some (VStr "sort_by"); Some (VStr "sort_order")])
  /\ (exists limit offset,
        vpath ["get"; "parameters"] (Basic.collection_path table_name)
        = Some (VList [limit; offset])
        /\ map (vget "name") [limit; offset]
           = [Some (VStr "limit"); Some (VStr "offset")]).
Proof.
  intros Hyes. split; [|eexists _, _; split; reflexivity].
  assert (Hqp : exists filters page limit sort_by sort_order,
             Enhanced.add_smart_query_params columns table_name
               = filters ++ [page; limit; sort_by; sort_order]
             /\ filters
                = Enhanced.table_specific_params (lower table_name)
                    (map (fun c => lower (col_name c)) columns)
                  ++ Enhanced.date_range_params
                       (map (fun c => lower (col_name c)) columns)
                  ++ Enhanced.search_params columns
             /\ map (vget "name") [page; limit; sort_by; sort_order]
                = [Some (VStr "page"); Some (VStr "limit");
                   Some (VStr "sort_by"); Some (VStr "sort_order")]).
  { unfold Enhanced.add_smart_query_params. rewrite Hyes. cbv zeta.
    change (negb true) with false. cbv iota.
    set (specific := Enhanced.table_specific_params _ _).
    set (dates := Enhanced.date_range_params _).
    set (search := Enhanced.search_params _).
    unfold Enhanced.pagination_params.
    eexists (specific ++ dates ++ search), _, _, _, _.
    split; [now rewrite !app_assoc|]. split; reflexivity. }
  destruct Hqp as [filters [page [limit [sort_by [sort_order [Hqp [Hf Hn]]]]]]].
  assert (Hget : forall st more,
             vpath ["paths"; "/"; "get"; "parameters"]
               (Enhanced.document table_name st
                  (("/", Enhanced.collection_path table_name
                           (Enhanced.add_smart_query_params columns table_name))
                     :: more))
             = Some (VList (filters ++ [page; limit; sort_by; sort_order]))).
  { intros st more. rewrite Hqp.
    destruct filters as [|f filters]; reflexivity. }
  destruct (enhanced_spec_shape table_name columns)
    as [[pk [native [c [_ [_ [_ [_ Hdoc]]]]]]] | [_ Hdoc]];
    rewrite Hdoc; eexists _, filters, page, limit, sort_by, sort_order;
    (split; [reflexivity|]); (split; [apply Hget|]);
    repeat split; assumption.
Qed.

Lemma searchable_parameters_end_with_paging_witness :
  exists doc filters page limit sort_by sort_order,
    Enhanced.create_enhanced_individual_table_spec "tasks"
      [mkColumn "id" "int(11)" "NO" "PRI" None (Some "auto_increment");
       mkColumn "due_date" "date" "YES" "" None (Some "")] = Ok doc
    /\ vpath ["paths"; "/"; "get"; "parameters"] doc
       = Some (VList (filters ++ [page; limit; sort_by; sort_order]))
    /\ map (vget "name") filters
       = [Some (VStr "status_id"); Some (VStr "priority_level");
          Some (VStr "assigned_to"); Some (VStr "due_date_from");
          Some (VStr "due_date_to")]
    /\ map (vget "name") [page; limit; sort_by; sort_order]
       = [Some (VStr "page"); Some (VStr "limit");
          Some (VStr "sort_by"); Some (VStr "sort_order")].
Proof.
  destruct (searchable_parameters_end_with_paging "tasks"
    [mkColumn "id" "int(11)" "NO" "PRI" None (Some "auto_increment");
     mkColumn "due_date" "date" "YES" "" None (Some "")] eq_refl)
    as [[doc [filters [page [limit [sort_by [sort_order
          [H0 [H1 [_ [H2 H3]]]]]]]]]] _].
  exists doc, filters, page, limit, sort_by, sort_order.
  split; [exact H0|]. split; [exact H1|]. split; [|exact H3].
  rewrite H2. reflexivity.
Defined.

(** C4 as worded fails for the single-document generator: [users] is a
    searchable table, and the parameters of its collection GET are [limit]
    and [offset]. *)
Lemma searchable_parameters_end_with_paging_counterexample :
  Enhanced.should_generate_query_params_individual "users" = true
  /\ exists doc params,
       Basic.export_mysql_to_openapi_yaml [mkTable "users" (Ok users_columns)]
         = Some doc
       /\ vpath ["paths"; "/users"; "get"; "parameters"] doc = Some (VList params)
       /\ map (vget "name") params = [Some (VStr "limit"); Some (VStr "offset")].
Proof.
  split; [reflexivity|].
  eexists _, _. split; [reflexivity|]. split; reflexivity.
Qed.

(* ================================================================== *)
(** ** Collection path and item path *)
(* ================================================================== *)

Lemma basic_single_run (t : table_input) :
  Basic.run [t] = fst (Basic.process_table t Basic.run_init).
Proof. reflexivity. Qed.

(** C7, as the code has it.  For a table with at least one column, whose
    primary-key columns have non-empty names, both generators produce the
    collection path with GET and POST, and produce the item path, keyed by
    the primary key column, exactly when some column has key PRI.  The item
    path of the per-table generator carries GET, PUT, PATCH and DELETE; the
    item path of the single-document generator carries GET, PUT and DELETE. *)
Theorem item_path_iff_primary_key (table_name : string) (c0 : column)
    (rest : list column) :
  let columns := c0 :: rest in
  (forall c, In c columns -> is_pri c = true -> col_name c <> "") ->
  (exists doc paths,
      Enhanced.create_enhanced_individual_table_spec table_name columns = Ok doc
      /\ vget "paths" doc = Some (VDict paths)
      /\ option_map vkeys (od_get "/" paths) = Some ["get"; "post"]
      /\ ((exists c, In c columns /\ is_pri c = true /\
             od_keys paths = ["/"; Enhanced.item_key (col_name c)]
             /\ option_map vkeys (od_get (Enhanced.item_key (col_name c)) paths)
                = Some ["get"; "put"; "patch"; "delete"])
          \/ ((forall c, In c columns -> is_pri c = false)
              /\ od_keys paths = ["/"])))
  /\ (let paths := Basic.paths (Basic.run [mkTable table_name (Ok columns)]) in
      option_map vkeys (od_get (Basic.collection_key table_name) paths)
        = Some ["get"; "post"]
      /\ ((exists c, In c columns /\ is_pri c = true /\
             od_keys paths = [Basic.collection_key table_name;
                              Basic.item_key table_name (col_name c)]
             /\ option_map vkeys
                  (od_get (Basic.item_key table_name (col_name c)) paths)
                = Some ["get"; "put"; "delete"])
          \/ ((forall c, In c columns -> is_pri c = false)
              /\ od_keys paths = [Basic.collection_key table_name]))).
Proof.
  intros columns Hnames. split.
  - destruct (enhanced_spec_shape table_name columns)
      as [[pk [native [c [Hin [Hpri [Hname [Hne Hdoc]]]]]]] | [Hnone Hdoc]];
      rewrite Hdoc; eexists _, _;
      (split; [reflexivity|]); (split; [reflexivity|]); (split; [reflexivity|]).
    + left. exists c. subst pk. repeat (split; [assumption || reflexivity|]).
      cbn [od_get]. rewrite item_key_not_root, String.eqb_refl. reflexivity.
    + right. destruct Hnone as [Hnone | [c [Hin [Hpri Hname]]]].
      * split; [exact Hnone | reflexivity].
      * exfalso. exact (Hnames c Hin Hpri Hname).
  - rewrite basic_single_run.
    destruct (basic_process_shape (mkTable table_name (Ok columns)) c0 rest
                Basic.run_init eq_refl)
      as [[pk [native [c [Hin [Hpri [Hname [Hne Hrun]]]]]]] | [Hnone Hrun]];
      rewrite Hrun; cbv zeta;
      cbn [fst Basic.paths Basic.mark_processed Basic.set_path Basic.set_schema
           Basic.run_init tbl_name od_set];
      rewrite ?basic_item_key_not_collection;
      cbn [od_get]; rewrite String.eqb_refl.
    + split; [reflexivity|].
      left. exists c. subst pk. repeat (split; [assumption || reflexivity|]).
      cbn [od_get]. rewrite basic_item_key_not_collection, String.eqb_refl.
      reflexivity.
    + split; [reflexivity|].
      right. destruct Hnone as [Hnone | [c [Hin [Hpri Hname]]]].
      * split; [exact Hnone | reflexivity].
      * exfalso. exact (Hnames c Hin Hpri Hname).
Qed.

Lemma item_path_iff_primary_key_witness :
  exists doc,
    Enhanced.create_enhanced_individual_table_spec "users" users_columns = Ok doc
    /\ option_map vkeys (vpath ["paths"; "/"] doc) = Some ["get"; "post"]
    /\ option_map vkeys (vpath ["paths"; "/{id}"] doc)
       = Some ["get"; "put"; "patch"; "delete"].
Proof.
  assert (Hnames : forall c, In c users_columns -> is_pri c = true -> col_name c <> "").
  { intros c [<-|[<-|[<-|[]]]] _; discriminate. }
  destruct (item_path_iff_primary_key "users"
              (mkColumn "id" "int(11)" "NO" "PRI" None (Some "auto_increment"))
              [mkColumn "email" "varchar(255)" "NO" "" None (Some "");
               mkColumn "created_at" "timestamp" "YES" "" None (Some "")] Hnames)
    as [[doc [paths [Hdoc _]]] _].
  exists doc. split; [exact Hdoc|].
  vm_compute in Hdoc. injection Hdoc as <-. split; reflexivity.
Defined.

(** C7 as worded fails for the single-document generator: the table has a
    primary key and gets its item path, but the item path has no PATCH. *)
Lemma item_path_iff_primary_key_counterexample :
  exists doc,
    Basic.export_mysql_to_openapi_yaml [mkTable "codes" (Ok natural_key_columns)]
      = Some doc
    /\ (exists c, In c natural_key_columns /\ is_pri c = true)
    /\ option_map vkeys (vpath ["paths"; "/codes/{code}"] doc)
       = Some ["get"; "put"; "delete"]
    /\ vpath ["paths"; "/codes/{code}"; "patch"] doc = None.
Proof.
  eexists. split; [reflexivity|].
  split; [eexists; split; [left; reflexivity | reflexivity]|].
  split; reflexivity.
Qed.

(* ================================================================== *)
(** ** References *)
(* ================================================================== *)

Section References.

Lemma refs_dict_cons (kv : string * value) (d : dict) :
  refs (VDict (kv :: d)) = refs_entry kv ++ refs (VDict d).
Proof. destruct kv as [k [ | | | | | | ]]; reflexivity. Qed.

Lemma refs_list_cons (x : value) (l : list value) :
  refs (VList (x :: l)) = refs x ++ refs (VList l).
Proof. reflexivity. Qed.

Lemma refs_list_app (l l' : list value) :
  refs (VList (l ++ l')) = refs (VList l) ++ refs (VList l').
Proof.
  induction l as [|x l IH]; [reflexivity|].
  rewrite <- app_comm_cons, !refs_list_cons, IH. apply app_assoc.
Qed.

Lemma refs_list_of_strings {A : Type} (f : A -> string) (l : list A) :
  refs (VList (map (fun a => VStr (f a)) l)) = [].
Proof. induction l as [|a l IH]; [reflexivity|]. simpl map.
       rewrite refs_list_cons, IH. reflexivity. Qed.

Variable allowed : list string.

Lemma incl_empty (l : list string) : l = [] -> incl l allowed.
Proof. intros ->. apply incl_nil_l. Qed.

Lemma incl_dict_cons (kv : string * value) (d : dict) :
  incl (refs_entry kv) allowed -> incl (refs (VDict d)) allowed ->
  incl (refs (VDict (kv :: d))) allowed.
Proof. intros H1 H2. rewrite refs_dict_cons. now apply incl_app. Qed.

Lemma incl_list_cons (x : value) (l : list value) :
  incl (refs x) allowed -> incl (refs (VList l)) allowed ->
  incl (refs (VList (x :: l))) allowed.
Proof. intros H1 H2. rewrite refs_list_cons. now apply incl_app. Qed.

Lemma incl_entry_ref (s : string) :
  In s allowed -> incl (refs_entry ("$ref", VStr s)) allowed.
Proof. intros H r [<-|[]]. exact H. Qed.

Lemma incl_entry_dict (k : string) (d : dict) :
  incl (refs (VDict d)) allowed -> incl (refs_entry (k, VDict d)) allowed.
Proof. exact (fun H => H). Qed.

Lemma incl_entry_list (k : string) (l : list value) :
  incl (refs (VList l)) allowed -> incl (refs_entry (k, VList l)) allowed.
Proof. exact (fun H => H). Qed.

(** Assigning a key keeps the references of a dictionary within those it
    had and those of the new entry. *)
Lemma incl_refs_od_set (k : string) (v : value) (d : dict) :
  incl (refs (VDict d)) allowed -> incl (refs_entry (k, v)) allowed ->
  incl (refs (VDict (od_set k v d))) allowed.
Proof.
  intros Hd Hv. induction d as [|[k0 v0] d IH].
  - simpl od_set. apply incl_dict_cons; [exact Hv | apply incl_nil_l].
  - rewrite refs_dict_cons in Hd. apply incl_app_inv in Hd. destruct Hd as [H0 Hd].
    simpl od_set. destruct (k0 =? k) eqn:E.
    + apply String.eqb_eq in E. subst k0. now apply incl_dict_cons.
    + apply incl_dict_cons; [exact H0 | now apply IH].
Qed.

Lemma incl_refs_od_del (k : string) (d : dict) :
  incl (refs (VDict d)) allowed -> incl (refs (VDict (od_del k d))) allowed.
Proof.
  induction d as [|[k0 v0] d IH]; intros Hd; [exact Hd|].
  rewrite refs_dict_cons in Hd. apply incl_app_inv in Hd. destruct Hd as [H0 Hd].
  simpl od_del. destruct (k0 =? k); [exact Hd|].
  apply incl_dict_cons; auto.
Qed.

End References.

(** Walks a document written out as nested displays and leaves the goals
    about its references proper and about its variable parts. *)
Ltac refs_within :=
  repeat match goal with
         | |- incl _ _ =>
             first
               [ apply incl_nil_l
               | apply incl_dict_cons
               | apply incl_list_cons
               | apply incl_entry_ref
               | apply incl_entry_dict
               | apply incl_entry_list
               | (apply incl_empty; reflexivity) ]
         end.

Section NoReferences.

Lemma no_refs_od_set (k : string) (d d' : dict) :
  refs (VDict d') = [] -> refs (VDict d) = [] ->
  refs (VDict (od_set k (VDict d) d')) = [].
Proof.
  intros H' H. apply incl_l_nil. apply incl_refs_od_set.
  - now apply incl_empty.
  - apply incl_entry_dict. now apply incl_empty.
Qed.

Lemma no_refs_set_scalar (k : string) (v : value) (d : dict) :
  refs_entry (k, v) = [] -> refs (VDict d) = [] -> refs (VDict (od_set k v d)) = [].
Proof.
  intros Hv H. apply incl_l_nil. apply incl_refs_od_set; now apply incl_empty.
Qed.

Lemma no_refs_od_del (k : string) (d : dict) :
  refs (VDict d) = [] -> refs (VDict (od_del k d)) = [].
Proof.
  intros H. apply incl_l_nil. apply incl_refs_od_del. now apply incl_empty.
Qed.

Lemma basic_type_no_refs (s : string) :
  refs (VDict (Basic.mysql_type_to_openapi_type s)) = [].
Proof.
  unfold Basic.mysql_type_to_openapi_type. cbv zeta. split_rules; reflexivity.
Qed.

Lemma enhanced_type_no_refs (s : string) :
  refs (VDict (Enhanced.mysql_type_to_openapi_type s)) = [].
Proof.
  unfold Enhanced.mysql_type_to_openapi_type. cbv zeta. split_rules; reflexivity.
Qed.

Ltac no_refs_sets lemma :=
  repeat (apply no_refs_set_scalar; [reflexivity|]); apply lemma.

Lemma basic_decorate_no_refs (c : column) :
  refs (VDict (Basic.decorate c)) = [].
Proof.
  unfold Basic.decorate, Basic.describe_by_name. cbv zeta.
  split_rules; no_refs_sets basic_type_no_refs.
Qed.

Lemma enhanced_decorate_no_refs (table_name : string) (pk : option string)
    (c : column) :
  refs (VDict (Enhanced.decorate table_name pk c)) = [].
Proof.
  unfold Enhanced.decorate. cbv zeta.
  split_rules; no_refs_sets enhanced_type_no_refs.
Qed.

Lemma basic_without_readOnly_no_refs (d : dict) :
  refs (VDict d) = [] -> refs (VDict (Basic.without_readOnly d)) = [].
Proof.
  intros H. unfold Basic.without_readOnly.
  destruct (od_mem "readOnly" d); [now apply no_refs_od_del | exact H].
Qed.

Lemma enhanced_without_readOnly_no_refs (d : dict) :
  refs (VDict d) = [] -> refs (VDict (Enhanced.without_readOnly d)) = [].
Proof.
  intros H. unfold Enhanced.without_readOnly.
  destruct (od_mem "readOnly" d); [now apply no_refs_od_del | exact H].
Qed.

Lemma schema_value_no_refs (s : schema) :
  refs (VDict (properties s)) = [] -> refs (schema_value s) = [].
Proof.
  intros H. unfold schema_value. apply incl_l_nil. refs_within.
  - now apply incl_empty.
  - apply incl_empty. apply (refs_list_of_strings (fun x => x)).
Qed.

Lemma basic_schemas_no_refs (columns : list column) :
  refs (schema_value (table_schema (Basic.build_schemas columns))) = []
  /\ refs (schema_value (new_table_schema (Basic.build_schemas columns))) = [].
Proof.
  assert (H : refs (VDict (properties (table_schema (Basic.build_schemas columns)))) = []
              /\ refs (VDict (properties
                    (new_table_schema (Basic.build_schemas columns)))) = []).
  { unfold Basic.build_schemas.
    apply (loop_invariant Basic.column_step
             (fun _ st => refs (VDict (properties (table_schema st))) = []
                          /\ refs (VDict (properties (new_table_schema st))) = [])).
    - split; reflexivity.
    - intros l st c [Ht Hn]. unfold Basic.column_step. cbv zeta. split.
      + cbn [table_schema properties].
        apply no_refs_od_set; [exact Ht | apply basic_decorate_no_refs].
      + cbn [new_table_schema].
        destruct (negb (is_pri c && _)); cbn [properties]; [|exact Hn].
        apply no_refs_od_set; [exact Hn|].
        apply basic_without_readOnly_no_refs, basic_decorate_no_refs. }
  destruct H. split; now apply schema_value_no_refs.
Qed.

Lemma enhanced_schemas_no_refs (table_name : string) (columns : list column) :
  let st := Enhanced.build_schemas table_name columns in
  refs (schema_value (table_schema st)) = []
  /\ refs (schema_value (new_table_schema st)) = []
  /\ refs (schema_value (Enhanced.update_table_schema (new_table_schema st))) = [].
Proof.
  intros st.
  assert (H : refs (VDict (properties (table_schema st))) = []
              /\ refs (VDict (properties (new_table_schema st))) = []).
  { unfold st, Enhanced.build_schemas.
    apply (loop_invariant (Enhanced.column_step table_name)
             (fun _ st => refs (VDict (properties (table_schema st))) = []
                          /\ refs (VDict (properties (new_table_schema st))) = [])).
    - split; reflexivity.
    - intros l s c [Ht Hn]. unfold Enhanced.column_step. cbv zeta. split.
      + cbn [table_schema properties].
        apply no_refs_od_set; [exact Ht | apply enhanced_decorate_no_refs].
      + cbn [new_table_schema].
        destruct (negb (is_pri c && _) && _); cbn [properties]; [|exact Hn].
        apply no_refs_od_set; [exact Hn|].
        apply enhanced_without_readOnly_no_refs, enhanced_decorate_no_refs. }
  destruct H as [Ht Hn].
  repeat split; apply schema_value_no_refs; assumption.
Qed.

Lemma pk_schema_no_refs (native : string) :
  refs (Basic.pk_schema native) = [] /\ refs (Enhanced.pk_schema native) = [].
Proof.
  unfold Basic.pk_schema, Enhanced.pk_schema. cbv zeta.
  destruct (contains "int" native); split; reflexivity.
Qed.

Lemma query_params_no_refs (columns : list column) (table_name : string) :
  refs (VList (Enhanced.add_smart_query_params columns table_name)) = [].
Proof.
  unfold Enhanced.add_smart_query_params.
  destruct (negb _); [reflexivity|]. cbv zeta.
  rewrite !refs_list_app.
  assert (H1 : forall n names,
             refs (VList (Enhanced.table_specific_params n names)) = []).
  { intros n names.
    unfold Enhanced.table_specific_params, Enhanced.user_params,
      Enhanced.task_params.
    split_rules; reflexivity. }
  assert (H2 : forall names, refs (VList (Enhanced.date_range_params names)) = []).
  { intros names. unfold Enhanced.date_range_params. split_rules; reflexivity. }
  assert (H3 : refs (VList (Enhanced.search_params columns)) = []).
  { unfold Enhanced.search_params. cbv zeta. split_rules; reflexivity. }
  assert (H4 : refs (VList (Enhanced.pagination_params columns)) = []).
  { unfold Enhanced.pagination_params, Enhanced.query_param.
    apply incl_l_nil. refs_within.
    apply incl_empty. apply (refs_list_of_strings col_name). }
  now rewrite H1, H2, H3, H4.
Qed.

End NoReferences.

(* ================================================================== *)
(** ** Referential integrity *)
(* ================================================================== *)

Ltac pick_member :=
  solve [cbn [In]; repeat first [left; reflexivity | right]].

Lemma enhanced_paths_refs_within (table_name : string) (columns : list column)
    (pk native : string) :
  let collection :=
    Enhanced.collection_path table_name
      (Enhanced.add_smart_query_params columns table_name) in
  incl (refs (VDict [("/", collection)])) (enhanced_references table_name)
  /\ incl (refs (VDict [("/", collection);
                        (Enhanced.item_key pk,
                         Enhanced.item_path table_name pk
                           (Enhanced.pk_schema native))]))
          (enhanced_references table_name).
Proof.
  intros collection.
  assert (Hc : incl (refs collection) (enhanced_references table_name)).
  { unfold collection, Enhanced.collection_path, Enhanced.get_endpoint,
      Enhanced.post_endpoint, Enhanced.json_content, Enhanced.schema_ref,
      Enhanced.response_ref, enhanced_references.
    cbv zeta.
    pose proof (query_params_no_refs columns table_name) as Hq.
    destruct (truthy _); cbn [od_set String.eqb Ascii.eqb Bool.eqb];
      refs_within; try pick_member; now apply incl_empty. }
  assert (Hi : incl (refs (Enhanced.item_path table_name pk
                             (Enhanced.pk_schema native)))
                    (enhanced_references table_name)).
  { unfold Enhanced.item_path, Enhanced.path_parameter, Enhanced.json_content,
      Enhanced.schema_ref, Enhanced.response_ref, enhanced_references.
    cbv zeta.
    refs_within; try pick_member;
      apply incl_empty; apply pk_schema_no_refs. }
  split.
  - apply incl_dict_cons; [exact Hc | apply incl_nil_l].
  - apply incl_dict_cons; [exact Hc|].
    apply incl_dict_cons; [|apply incl_nil_l].
    unfold Enhanced.item_path in *. exact Hi.
Qed.

Lemma forallb_In {A : Type} (f : A -> bool) (l : list A) :
  (forall x, In x l -> f x = true) -> forallb f l = true.
Proof. intros H. apply forallb_forall. exact H. Qed.

Lemma enhanced_component_schemas_no_refs (table_name : string)
    (columns : list column) :
  refs (VDict (Enhanced.component_schemas table_name
                 (Enhanced.build_schemas table_name columns))) = [].
Proof.
  destruct (enhanced_schemas_no_refs table_name columns) as [Ht [Hn Hu]].
  unfold Enhanced.component_schemas, od_of_pairs. cbn [fold_left fst snd].
  repeat (apply no_refs_set_scalar; [assumption || reflexivity|]).
  reflexivity.
Qed.

Lemma enhanced_document_refs_within (table_name : string)
    (columns : list column) (paths : dict) :
  incl (refs (VDict paths)) (enhanced_references table_name) ->
  incl (refs (Enhanced.document table_name
                (Enhanced.build_schemas table_name columns) paths))
       (enhanced_references table_name).
Proof.
  intros Hpaths.
  pose proof (enhanced_component_schemas_no_refs table_name columns) as Hs.
  unfold Enhanced.document, Enhanced.info, Enhanced.servers,
    Enhanced.component_responses, Enhanced.validation_error, Enhanced.not_found,
    Enhanced.conflict, Enhanced.error_property, Enhanced.json_content.
  cbv zeta.
  refs_within; [exact Hpaths | now apply incl_empty].
Qed.

Lemma resolves_schema_key (doc : value) (schemas : dict) (k : string) :
  vpath ["components"; "schemas"] doc = Some (VDict schemas) ->
  In k (od_keys schemas) ->
  resolves doc ("#/components/schemas/" ++ k) = true.
Proof.
  intros Hdoc Hk. unfold resolves.
  change (strip_prefix "#/components/schemas/" ("#/components/schemas/" ++ k))
    with (Some k).
  cbv iota beta.
  apply od_get_some_key in Hk. destruct Hk as [v Hv].
  rewrite vpath_cons in Hdoc.
  rewrite vpath_cons.
  destruct (vget "components" doc) as [comp|]; [|discriminate].
  rewrite vpath_cons in Hdoc. rewrite vpath_cons.
  destruct (vget "schemas" comp) as [sch|]; [|discriminate].
  simpl in Hdoc. injection Hdoc as ->.
  rewrite vpath_one, Hv. reflexivity.
Qed.

Lemma enhanced_references_resolve (table_name : string) (st : loop_state)
    (paths : dict) (r : string) :
  In r (enhanced_references table_name) ->
  resolves (Enhanced.document table_name st paths) r = true.
Proof.
  assert (Hk : forall k,
             In k (od_keys (Enhanced.component_schemas table_name st)) ->
             resolves (Enhanced.document table_name st paths)
               ("#/components/schemas/" ++ k) = true).
  { intros k. now apply resolves_schema_key. }
  assert (Hkeys : forall k,
             In k [Enhanced.schema_name table_name;
                   Enhanced.new_schema_name table_name;
                   Enhanced.update_schema_name table_name; "PaginationMeta"] ->
             In k (od_keys (Enhanced.component_schemas table_name st))).
  { intros k Hin. unfold Enhanced.component_schemas.
    apply od_keys_of_pairs. exact Hin. }
  unfold enhanced_references.
  intros [<-|[<-|[<-|[<-|[<-|[<-|[<-|[]]]]]]]].
  - apply Hk, Hkeys. pick_member.
  - apply Hk, Hkeys. pick_member.
  - apply Hk, Hkeys. pick_member.
  - apply (Hk "PaginationMeta"), Hkeys. pick_member.
  - reflexivity.
  - reflexivity.
  - reflexivity.
Qed.

(** The per-table document resolves all its references. *)
Lemma enhanced_references_ok (table_name : string) (columns : list column) :
  exists doc,
    Enhanced.create_enhanced_individual_table_spec table_name columns = Ok doc
    /\ forallb (resolves doc) (refs doc) = true.
Proof.
  destruct (enhanced_paths_refs_within table_name columns "" "") as [Hroot _].
  destruct (enhanced_spec_shape table_name columns)
    as [[pk [native [c [_ [_ [_ [_ Hdoc]]]]]]] | [_ Hdoc]];
    rewrite Hdoc; eexists; (split; [reflexivity|]);
    apply forallb_In; intros r Hr; apply enhanced_references_resolve;
    revert r Hr; apply enhanced_document_refs_within.
  - apply (enhanced_paths_refs_within table_name columns pk native).
  - exact Hroot.
Qed.

Lemma for_each_try_invariant {S A : Type} (body : A -> M S unit) (P : S -> Prop) :
  (forall x s, P s -> P (try_continue (body x) s)) ->
  forall l s, P s -> P (for_each_try body l s).
Proof.
  intros Hstep l. unfold for_each_try.
  induction l as [|x l IH]; intros s Hs; [exact Hs|].
  simpl. apply IH. now apply Hstep.
Qed.

Lemma for_each_try_app {S A : Type} (body : A -> M S unit) (l l' : list A) (s : S) :
  for_each_try body (l ++ l') s = for_each_try body l' (for_each_try body l s).
Proof. unfold for_each_try. apply fold_left_app. Qed.

Lemma basic_process_failure (t : table_input) (e : string) (s : Basic.run_state) :
  tbl_describe t = Raise e -> Basic.process_table t s = (s, Raise e).
Proof. intros H. unfold Basic.process_table, bind, lift. now rewrite H. Qed.

Lemma basic_process_empty (t : table_input) (s : Basic.run_state) :
  tbl_describe t = Ok [] -> Basic.process_table t s = (s, Ok tt).
Proof. intros H. unfold Basic.process_table, bind, lift. now rewrite H. Qed.

Lemma schema_references_mono (d : dict) (k : string) (v : value) :
  incl (schema_references (od_keys d)) (schema_references (od_keys (od_set k v d))).
Proof.
  unfold schema_references. apply incl_map.
  intros x Hx. apply od_keys_set. auto.
Qed.

Lemma schema_reference_in (keys : list string) (k : string) :
  In k keys -> In ("#/components/schemas/" ++ k)%string (schema_references keys).
Proof.
  intros H. unfold schema_references.
  exact (in_map (fun k => ("#/components/schemas/" ++ k)%string) keys k H).
Qed.

Lemma basic_paths_refs_within (table_name pk native : string) (keys : list string) :
  In (Basic.schema_name table_name) keys ->
  In (Basic.new_schema_name table_name) keys ->
  incl (refs (Basic.collection_path table_name)) (schema_references keys)
  /\ incl (refs (Basic.item_path table_name pk (Basic.pk_schema native)))
          (schema_references keys).
Proof.
  intros Hs Hn.
  pose proof (schema_reference_in keys _ Hs) as Hs'.
  pose proof (schema_reference_in keys _ Hn) as Hn'.
  split.
  - unfold Basic.collection_path, Basic.json_content, Basic.ref_to. cbv zeta.
    refs_within; assumption.
  - unfold Basic.item_path, Basic.path_parameter, Basic.json_content, Basic.ref_to.
    cbv zeta.
    refs_within; try assumption; apply incl_empty; apply pk_schema_no_refs.
Qed.

Lemma basic_step_integrity (t : table_input) (s : Basic.run_state) :
  basic_integrity s -> basic_integrity (try_continue (Basic.process_table t) s).
Proof.
  intros [Hpaths Hschemas]. unfold try_continue.
  destruct (tbl_describe t) as [[|c0 rest]|e] eqn:Hd.
  - rewrite (basic_process_empty t s Hd). now split.
  - set (table_name := tbl_name t).
    set (st := Basic.build_schemas (c0 :: rest)).
    set (schemas' :=
           od_set (Basic.new_schema_name table_name)
             (schema_value (new_table_schema st))
             (od_set (Basic.schema_name table_name)
                (schema_value (table_schema st)) (Basic.schemas s))).
    destruct (basic_schemas_no_refs (c0 :: rest)) as [Ht Hn]. fold st in Ht, Hn.
    assert (Hno : refs (VDict schemas') = []).
    { unfold schemas'.
      apply no_refs_set_scalar; [exact Hn|].
      apply no_refs_set_scalar; [exact Ht | exact Hschemas]. }
    assert (Hold : incl (refs (VDict (Basic.paths s)))
                        (schema_references (od_keys schemas'))).
    { eapply incl_tran; [exact Hpaths|]. unfold schemas'.
      eapply incl_tran; apply schema_references_mono. }
    assert (Hk1 : In (Basic.schema_name table_name) (od_keys schemas')).
    { unfold schemas'. apply od_keys_set. right. apply od_keys_set. now left. }
    assert (Hk2 : In (Basic.new_schema_name table_name) (od_keys schemas')).
    { unfold schemas'. apply od_keys_set. now left. }
    assert (Hcoll : incl (refs (VDict (od_set (Basic.collection_key table_name)
                            (Basic.collection_path table_name) (Basic.paths s))))
                         (schema_references (od_keys schemas'))).
    { apply incl_refs_od_set; [exact Hold|].
      apply (basic_paths_refs_within table_name "" "" _ Hk1 Hk2). }
    destruct (basic_process_shape t c0 rest s Hd)
      as [[pk [native [c [_ [_ [_ [_ Hrun]]]]]]] | [_ Hrun]];
      rewrite Hrun; split; try exact Hno.
    + cbn [fst Basic.paths Basic.schemas Basic.mark_processed Basic.set_path
           Basic.set_schema].
      apply incl_refs_od_set; [exact Hcoll|].
      apply (basic_paths_refs_within table_name pk native _ Hk1 Hk2).
    + exact Hcoll.
  - rewrite (basic_process_failure t e s Hd). now split.
Qed.

Lemma basic_run_integrity (tables : list table_input) :
  basic_integrity (Basic.run tables).
Proof.
  unfold Basic.run. apply for_each_try_invariant.
  - intros t s. apply basic_step_integrity.
  - split; [apply incl_nil_l | reflexivity].
Qed.

(** The single document resolves all its references. *)
Lemma basic_references_ok (tables : list table_input) :
  forallb (resolves (Basic.document (Basic.run tables)))
          (refs (Basic.document (Basic.run tables))) = true.
Proof.
  destruct (basic_run_integrity tables) as [Hpaths Hschemas].
  set (s := Basic.run tables) in *.
  apply forallb_In. intros r Hr.
  assert (Hincl : incl (refs (Basic.document s))
                       (schema_references
                          (od_keys (od_set "Error" Basic.error_schema
                                      (Basic.schemas s))))).
  { unfold Basic.document.
    refs_within.
    - eapply incl_tran; [exact Hpaths | apply schema_references_mono].
    - apply incl_empty. apply no_refs_set_scalar; [reflexivity | exact Hschemas]. }
  pose proof (Hincl r Hr) as Hin.
  unfold schema_references in Hin. apply in_map_iff in Hin.
  destruct Hin as [k [<- Hk]].
  now apply (resolves_schema_key _
               (od_set "Error" Basic.error_schema (Basic.schemas s))).
Qed.

(** C6.  Every [$ref] string of the per-table document, and of the single
    document built from any sequence of tables, names a key of that
    document's [components.schemas] or [components.responses]. *)
Theorem every_reference_resolves (table_name : string) (columns : list column)
    (tables : list table_input) :
  (exists doc,
      Enhanced.create_enhanced_individual_table_spec table_name columns = Ok doc
      /\ forallb (resolves doc) (refs doc) = true)
  /\ match Basic.export_mysql_to_openapi_yaml tables with
     | Some doc => forallb (resolves doc) (refs doc) = true
     | None => Basic.processed_tables (Basic.run tables) = []
     end.
Proof.
  split; [apply enhanced_references_ok|].
  unfold Basic.export_mysql_to_openapi_yaml.
  destruct tables as [|t tables]; [reflexivity|].
  destruct (Basic.processed_tables (Basic.run (t :: tables))) eqn:E;
    [reflexivity | apply basic_references_ok].
Qed.

(** The references of the [users] document, all resolved. *)
Example users_references :
  exists doc,
    Enhanced.create_enhanced_individual_table_spec "users" users_columns = Ok doc
    /\ List.length (refs doc) = 18
    /\ In "#/components/schemas/UpdateUser" (refs doc)
    /\ forallb (resolves doc) (refs doc) = true
    /\ resolves doc "#/components/schemas/User" = false.
Proof. eexists. split; [reflexivity|]. vm_compute. intuition. Qed.

(* ================================================================== *)
(** ** Failure isolation in the export loops *)
(* ================================================================== *)

Section Isolation.

(** In the single-document generator a table that raises leaves the shared
    document as it found it: the only statement that can raise is the
    [DESCRIBE], which comes before every assignment to the document. *)
Lemma basic_raise_unchanged (t : table_input) (s : Basic.run_state) :
  raises (Basic.process_table t) s = true ->
  try_continue (Basic.process_table t) s = s.
Proof.
  unfold raises, try_continue.
  destruct (tbl_describe t) as [[|c0 rest]|e] eqn:Hd.
  - now rewrite (basic_process_empty t s Hd).
  - destruct (basic_process_shape t c0 rest s Hd)
      as [[pk [native [c [_ [_ [_ [_ Hrun]]]]]]] | [_ Hrun]];
      rewrite Hrun; discriminate.
  - now rewrite (basic_process_failure t e s Hd).
Qed.

Lemma basic_raises_iff (t : table_input) (s : Basic.run_state) :
  raises (Basic.process_table t) s = true <-> exists e, tbl_describe t = Raise e.
Proof.
  unfold raises.
  destruct (tbl_describe t) as [[|c0 rest]|e] eqn:Hd.
  - rewrite (basic_process_empty t s Hd). simpl.
    split; [discriminate | intros [e He]; discriminate].
  - destruct (basic_process_shape t c0 rest s Hd)
      as [[pk [native [c [_ [_ [_ [_ Hrun]]]]]]] | [_ Hrun]];
      rewrite Hrun; simpl; (split; [discriminate | intros [e He]; discriminate]).
  - rewrite (basic_process_failure t e s Hd). simpl. split; eauto.
Qed.

(** The tables recorded as processed are those whose [DESCRIBE] gave rows. *)
Lemma basic_processed (tables : list table_input) (s : Basic.run_state) :
  Basic.processed_tables (for_each_try Basic.process_table tables s)
  = Basic.processed_tables s ++ map tbl_name (filter has_rows tables).
Proof.
  revert s. induction tables as [|t tables IH]; intros s.
  - simpl. now rewrite app_nil_r.
  - change (for_each_try Basic.process_table (t :: tables) s)
      with (for_each_try Basic.process_table tables
              (try_continue (Basic.process_table t) s)).
    rewrite IH. unfold try_continue, has_rows. simpl filter. unfold has_rows.
    destruct (tbl_describe t) as [[|c0 rest]|e] eqn:Hd.
    + now rewrite (basic_process_empty t s Hd).
    + destruct (basic_process_shape t c0 rest s Hd)
        as [[pk [native [c [_ [_ [_ [_ Hrun]]]]]]] | [_ Hrun]];
        rewrite Hrun; simpl; now rewrite <- app_assoc.
    + now rewrite (basic_process_failure t e s Hd).
Qed.

Variable sink : string -> result unit.

Lemma enhanced_create_ok (table_name : string) (columns : list column) :
  exists doc,
    Enhanced.create_enhanced_individual_table_spec table_name columns = Ok doc.
Proof.
  destruct (enhanced_spec_shape table_name columns)
    as [[pk [native [c [_ [_ [_ [_ Hdoc]]]]]]] | [_ Hdoc]]; eauto.
Qed.

Lemma enhanced_step (t : table_input) (s : Enhanced.run_state) :
  try_continue (Enhanced.process_table sink t) s = enhanced_effect sink t s.
Proof.
  unfold try_continue, enhanced_effect, Enhanced.process_table, bind, lift,
    modify, raise, ret.
  destruct (tbl_describe t) as [[|c0 rest]|e]; try reflexivity.
  destruct (Enhanced.create_enhanced_individual_table_spec _ _); [|reflexivity].
  destruct (sink _); [|reflexivity].
  destruct (Enhanced.should_generate_query_params_individual _); reflexivity.
Qed.

(** Every table whose document is written raises afterwards, at the
    [print] that reads the unbound [status_icon]. *)
Lemma enhanced_written_then_raises (t : table_input) (s : Enhanced.run_state)
    (c0 : column) (rest : list column) (u : unit) :
  tbl_describe t = Ok (c0 :: rest) ->
  sink (Enhanced.output_file (tbl_name t)) = Ok u ->
  raises (Enhanced.process_table sink t) s = true
  /\ exists doc,
       Enhanced.written (try_continue (Enhanced.process_table sink t) s)
       = Enhanced.written s ++ [(Enhanced.output_file (tbl_name t), doc)].
Proof.
  intros Hd Hs.
  destruct (enhanced_create_ok (tbl_name t) (c0 :: rest)) as [doc Hdoc].
  split.
  - unfold raises, Enhanced.process_table, bind, lift, modify, raise, ret.
    rewrite Hd, Hdoc, Hs.
    destruct (Enhanced.should_generate_query_params_individual _); reflexivity.
  - exists doc. rewrite enhanced_step. unfold enhanced_effect.
    rewrite Hd, Hdoc, Hs.
    destruct (Enhanced.should_generate_query_params_individual _); reflexivity.
Qed.

(** The files written by a run are the files written for each table, one
    after the other: no table changes what is written for another. *)
Lemma enhanced_written_from (tables : list table_input) (s : Enhanced.run_state) :
  Enhanced.written (for_each_try (Enhanced.process_table sink) tables s)
  = Enhanced.written s ++ Enhanced.written (Enhanced.run sink tables).
Proof.
  unfold Enhanced.run. revert s.
  induction tables as [|t tables IH]; intros s.
  - simpl. now rewrite app_nil_r.
  - change (for_each_try (Enhanced.process_table sink) (t :: tables) s)
      with (for_each_try (Enhanced.process_table sink) tables
              (try_continue (Enhanced.process_table sink t) s)).
    change (for_each_try (Enhanced.process_table sink) (t :: tables)
              Enhanced.run_init)
      with (for_each_try (Enhanced.process_table sink) tables
              (try_continue (Enhanced.process_table sink t) Enhanced.run_init)).
    rewrite (IH (try_continue _ s)), (IH (try_continue _ Enhanced.run_init)).
    rewrite !enhanced_step. unfold enhanced_effect.
    destruct (tbl_describe t) as [[|c0 rest]|e]; try reflexivity.
    destruct (Enhanced.create_enhanced_individual_table_spec _ _); [|reflexivity].
    destruct (sink _); [|reflexivity].
    destruct (Enhanced.should_generate_query_params_individual _);
      simpl; now rewrite <- !app_assoc.
Qed.

End Isolation.

(** C8.  In both export loops a table that raises is caught at the table's
    own [try] and the loop goes on.  In the single-document generator a
    table that raises leaves the document untouched, so the run is the run
    without that table; the export gives up only when no table at all was
    processed.  In the per-table generator a table that fails before its
    file is written leaves no trace, the files of the other tables are the
    same with or without any given table, and the export never gives up
    because of a table. *)
Theorem failure_isolation (sink : string -> result unit)
    (before after : list table_input) (t : table_input) :
  (raises (Basic.process_table t) (Basic.run before) = true ->
   Basic.run (before ++ t :: after) = Basic.run (before ++ after))
  /\ (Basic.export_mysql_to_openapi_yaml (before ++ t :: after) = None
      <-> forall x, In x (before ++ t :: after) -> has_rows x = false)
  /\ ((exists e, tbl_describe t = Raise e)
       \/ (exists e, sink (Enhanced.output_file (tbl_name t)) = Raise e) ->
      Enhanced.run sink (before ++ t :: after) = Enhanced.run sink (before ++ after))
  /\ (exists own,
        Enhanced.written (Enhanced.run sink (before ++ t :: after))
        = Enhanced.written (Enhanced.run sink before) ++ own
            ++ Enhanced.written (Enhanced.run sink after)
        /\ Enhanced.written (Enhanced.run sink (before ++ after))
           = Enhanced.written (Enhanced.run sink before)
               ++ Enhanced.written (Enhanced.run sink after))
  /\ Enhanced.export_enhanced_individual_openapi_specs sink (before ++ t :: after)
     <> None.
Proof.
  split; [|split; [|split; [|split]]].
  - intros Hraise. unfold Basic.run.
    rewrite !for_each_try_app.
    change (for_each_try Basic.process_table (t :: after)
              (for_each_try Basic.process_table before Basic.run_init))
      with (for_each_try Basic.process_table after
              (try_continue (Basic.process_table t)
                 (for_each_try Basic.process_table before Basic.run_init))).
    fold (Basic.run before). now rewrite basic_raise_unchanged.
  - unfold Basic.export_mysql_to_openapi_yaml, Basic.run.
    destruct (before ++ t :: after) as [|x l] eqn:El.
    { destruct before; discriminate. }
    rewrite basic_processed. cbn [Basic.processed_tables Basic.run_init app].
    destruct (map tbl_name (filter has_rows (x :: l))) eqn:E.
    + split; [intros _|reflexivity].
      apply map_eq_nil in E.
      intros y Hy. destruct (has_rows y) eqn:Ey; [|reflexivity].
      assert (Hin : In y (filter has_rows (x :: l)))
        by (apply filter_In; split; assumption).
      rewrite E in Hin. destruct Hin.
    + split; [discriminate|]. intros Hall. exfalso.
      assert (Hnil : filter has_rows (x :: l) = []).
      { destruct (filter has_rows (x :: l)) as [|y l'] eqn:Ef; [reflexivity|].
        assert (Hin : In y (filter has_rows (x :: l)))
          by (rewrite Ef; left; reflexivity).
        apply filter_In in Hin. destruct Hin as [Hin Hy].
        rewrite (Hall y Hin) in Hy. discriminate. }
      rewrite Hnil in E. discriminate.
  - intros Hfail. unfold Enhanced.run.
    rewrite !for_each_try_app.
    change (for_each_try (Enhanced.process_table sink) (t :: after)
              (for_each_try (Enhanced.process_table sink) before Enhanced.run_init))
      with (for_each_try (Enhanced.process_table sink) after
              (try_continue (Enhanced.process_table sink t)
                 (for_each_try (Enhanced.process_table sink) before
                    Enhanced.run_init))).
    rewrite enhanced_step. unfold enhanced_effect.
    destruct Hfail as [[e He] | [e He]].
    + now rewrite He.
    + rewrite He. destruct (tbl_describe t) as [[|c0 rest]|e']; try reflexivity.
      destruct (Enhanced.create_enhanced_individual_table_spec _ _); reflexivity.
  - exists (Enhanced.written (Enhanced.run sink [t])).
    unfold Enhanced.run at 1 5.
    rewrite !for_each_try_app, !enhanced_written_from.
    fold (Enhanced.run sink before).
    split; [|reflexivity].
    f_equal.
    change (t :: after) with ([t] ++ after).
    unfold Enhanced.run. rewrite for_each_try_app.
    apply enhanced_written_from.
  - unfold Enhanced.export_enhanced_individual_openapi_specs.
    destruct (before ++ t :: after) eqn:El; [destruct before|]; discriminate.
Qed.

Lemma failure_isolation_witness :
  let ghost := mkTable "ghost" (Raise "ProgrammingError") in
  let users := mkTable "users" (Ok users_columns) in
  let codes := mkTable "codes" (Ok natural_key_columns) in
  Basic.run ([users] ++ ghost :: [codes]) = Basic.run ([users] ++ [codes])
  /\ Enhanced.run (fun _ => Ok tt) ([users] ++ ghost :: [codes])
     = Enhanced.run (fun _ => Ok tt) ([users] ++ [codes]).
Proof.
  intros ghost users codes.
  destruct (failure_isolation (fun _ => Ok tt) [users] [codes] ghost)
    as [Hbasic [_ [Henhanced _]]].
  split.
  - apply Hbasic. reflexivity.
  - apply Henhanced. left. exists "ProgrammingError". reflexivity.
Defined.

(** The round-trip scenario: the [users] table through the per-table
    generator. *)
Example users_round_trip :
  let st := Enhanced.build_schemas "users" users_columns in
  od_keys (properties (table_schema st)) = ["id"; "email"; "created_at"]
  /\ od_keys (properties (new_table_schema st)) = ["email"]
  /\ required (new_table_schema st) = ["email"]
  /\ map (vget "name") (Enhanced.add_smart_query_params users_columns "users")
     = map (fun n => Some (VStr n))
         ["role_id"; "active"; "created_from"; "created_to";
          "page"; "limit"; "sort_by"; "sort_order"]
  /\ Enhanced.pk_schema "int(11)"
     = VDict [("type", VStr "integer"); ("format", VStr "int64");
              ("minimum", VInt 1)].
Proof. repeat split. Qed.

(** A table without a primary key gets the collection path only. *)
Example keyless_paths :
  exists doc,
    Enhanced.create_enhanced_individual_table_spec "audit_log" keyless_columns
      = Ok doc
    /\ option_map vkeys (vget "paths" doc) = Some ["/"]
    /\ vpath ["paths"; "/"; "get"; "parameters"] doc = None.
Proof. eexists. repeat split. Qed.

(* ================================================================== *)
(** * Further properties of the code *)
(* ================================================================== *)

(* ================================================================== *)
(** ** Table names *)
(* ================================================================== *)

Section TableNames.

Import Names.

Lemma space_not_word (c : ascii) : is_space c = true -> is_word c = false.
Proof.
  destruct c as [[] [] [] [] [] [] [] []]; vm_compute; intros H;
    first [reflexivity | discriminate H].
Qed.

Lemma word_not_space (c : ascii) : is_word c = true -> is_space c = false.
Proof.
  intros Hw. destruct (is_space c) eqn:E; [|reflexivity].
  apply space_not_word in E. congruence.
Qed.

Lemma rstrip_cons (c : ascii) (r : string) :
  rstrip (String c r)
  = if is_space c && (rstrip r =? "") then EmptyString else String c (rstrip r).
Proof. reflexivity. Qed.

Lemma rstrip_no_trailing_space (s : string) : no_trailing_space (rstrip s) = true.
Proof.
  induction s as [|c r IH]; [reflexivity|].
  rewrite rstrip_cons.
  destruct (is_space c) eqn:Ec; destruct (rstrip r =? "") eqn:Er; simpl andb;
    cbv iota; try reflexivity; simpl; rewrite Er; try exact IH.
  now rewrite Ec.
Qed.

Lemma skip_word_not_newline (t : string) :
  no_trailing_space t = true -> skip_word t <> newline.
Proof.
  induction t as [|c r IH]; [discriminate|].
  simpl. destruct (r =? "") eqn:Er.
  - apply String.eqb_eq in Er. subst r. intros Hc.
    destruct (is_word c); [discriminate|].
    intros H. injection H as ->. discriminate Hc.
  - intros Hr. destruct (is_word c); [now apply IH|].
    intros H. injection H as _ ->. discriminate Er.
Qed.

Lemma all_word_cons (c : ascii) (r : string) :
  all_word (String c r) = is_word c && all_word r.
Proof. reflexivity. Qed.

Lemma skip_word_empty (t : string) : skip_word t = "" <-> all_word t = true.
Proof.
  induction t as [|c r IH]; [split; reflexivity|].
  rewrite all_word_cons. simpl. destruct (is_word c); simpl.
  - exact IH.
  - split; discriminate.
Qed.

Lemma keep_word_of_words (t : string) : all_word t = true -> keep_word t = t.
Proof.
  induction t as [|c r IH]; [reflexivity|].
  rewrite all_word_cons. intros H. apply andb_prop in H. destruct H as [Hc Hr].
  simpl. now rewrite Hc, IH.
Qed.

Lemma keep_word_all_word (s : string) : all_word (keep_word s) = true.
Proof.
  induction s as [|c r IH]; [reflexivity|].
  simpl. destruct (is_word c) eqn:Ec; [|exact IH].
  rewrite all_word_cons, Ec. exact IH.
Qed.

Lemma keep_word_lstrip (s : string) : keep_word (lstrip s) = keep_word s.
Proof.
  induction s as [|c r IH]; [reflexivity|].
  simpl. destruct (is_space c) eqn:Ec; [|reflexivity].
  now rewrite (space_not_word c Ec).
Qed.

Lemma keep_word_rstrip (s : string) : keep_word (rstrip s) = keep_word s.
Proof.
  induction s as [|c r IH]; [reflexivity|].
  rewrite rstrip_cons.
  destruct (is_space c) eqn:Ec; destruct (rstrip r =? "") eqn:Er; simpl andb;
    cbv iota; try (simpl; now rewrite IH).
  apply String.eqb_eq in Er. simpl. rewrite (space_not_word c Ec), <- IH, Er.
  reflexivity.
Qed.

Lemma rstrip_of_words (t : string) : all_word t = true -> rstrip t = t.
Proof.
  induction t as [|c r IH]; [reflexivity|].
  rewrite all_word_cons. intros H. apply andb_prop in H. destruct H as [Hc Hr].
  rewrite rstrip_cons, (word_not_space c Hc), IH by assumption. reflexivity.
Qed.

Lemma lstrip_of_words (t : string) : all_word t = true -> lstrip t = t.
Proof.
  destruct t as [|c r]; [reflexivity|].
  rewrite all_word_cons. intros H. apply andb_prop in H. destruct H as [Hc _].
  simpl. now rewrite (word_not_space c Hc).
Qed.

Lemma strip_of_words (t : string) : all_word t = true -> strip t = t.
Proof.
  intros H. unfold strip. now rewrite lstrip_of_words, rstrip_of_words.
Qed.




(** On a string that does not end with white space the pattern accepts
    exactly the non-empty strings of word characters. *)
Lemma match_word_line_iff (t : string) :
  no_trailing_space t = true ->
  (match_word_line t = true <-> t <> "" /\ all_word t = true).
Proof.
  intros Hn. destruct t as [|c r].
  - split; [discriminate | intros [H _]; now elim H].
  - unfold match_word_line. cbv zeta.
    pose proof (skip_word_not_newline _ Hn) as Hnl.
    apply String.eqb_neq in Hnl. rewrite Hnl, orb_false_r.
    rewrite andb_true_iff, String.eqb_eq, skip_word_empty, all_word_cons.
    rewrite andb_true_iff. split.
    + intros [_ H]. split; [discriminate | exact H].
    + intros [_ [Hc Hr]]. split; [exact Hc | now split].
Qed.

Lemma valid_name_words (table_name : string) :
  is_valid_table_name table_name = true
  <-> strip table_name <> "" /\ all_word (strip table_name) = true.
Proof.
  unfold is_valid_table_name. apply match_word_line_iff.
  unfold strip. apply rstrip_no_trailing_space.
Qed.

End TableNames.

(** X1.  [is_valid_table_name] accepts a name exactly when the name, with
    the white space around it stripped, is a non-empty string of ASCII
    letters, digits and underscores: the match that [$] allows before a
    final newline never happens after [strip]. *)
Theorem valid_table_name_iff (table_name : string) :
  Names.is_valid_table_name table_name = true
  <-> Names.strip table_name <> "" /\ all_word (Names.strip table_name) = true.
Proof.
  unfold Names.is_valid_table_name.
  assert (Hend : no_trailing_space (Names.strip table_name) = true).
  { unfold Names.strip. apply rstrip_no_trailing_space. }
  destruct (Names.strip table_name) as [|c r] eqn:E.
  - split; [discriminate | intros [H _]; now elim H].
  - rewrite <- E in *. now apply match_word_line_iff.
Qed.

(** X2.  [sanitize_table_name] returns the word characters of its argument,
    in order; the result is accepted by [is_valid_table_name] unless it is
    empty, sanitizing twice changes nothing, and a name that is already
    valid is only stripped. *)
Theorem sanitize_table_name_valid (table_name : string) :
  Names.sanitize_table_name table_name = Names.keep_word table_name
  /\ Names.is_valid_table_name (Names.sanitize_table_name table_name)
     = negb (Names.sanitize_table_name table_name =? "")
  /\ Names.sanitize_table_name (Names.sanitize_table_name table_name)
     = Names.sanitize_table_name table_name
  /\ (Names.is_valid_table_name table_name = true ->
      Names.sanitize_table_name table_name = Names.strip table_name).
Proof.
  assert (Hs : Names.sanitize_table_name table_name = Names.keep_word table_name).
  { unfold Names.sanitize_table_name, Names.strip.
    now rewrite keep_word_rstrip, keep_word_lstrip. }
  pose proof (keep_word_all_word table_name) as Hw.
  split; [exact Hs|]. rewrite Hs. split; [|split].
  - destruct (Names.is_valid_table_name (Names.keep_word table_name)) eqn:E.
    + apply valid_name_words in E. destruct E as [E _].
      rewrite (strip_of_words _ Hw) in E.
      apply String.eqb_neq in E. now rewrite E.
    + destruct (Names.keep_word table_name =? "") eqn:Ee; [reflexivity|].
      apply String.eqb_neq in Ee.
      assert (Names.is_valid_table_name (Names.keep_word table_name) = true).
      { apply valid_name_words. now rewrite (strip_of_words _ Hw). }
      congruence.
  - unfold Names.sanitize_table_name.
    rewrite (strip_of_words _ Hw). now apply keep_word_of_words.
  - intros Hv. apply valid_name_words in Hv. destruct Hv as [_ Hv].
    rewrite <- Hs. unfold Names.sanitize_table_name.
    now apply keep_word_of_words.
Qed.

Lemma sanitize_table_name_valid_witness :
  Names.sanitize_table_name "  task_2024  " = "task_2024".
Proof.
  apply (proj2 (proj2 (proj2 (sanitize_table_name_valid "  task_2024  ")))).
  reflexivity.
Defined.

Example sanitize_examples :
  Names.sanitize_table_name "users; DROP TABLE x" = "usersDROPTABLEx"
  /\ Names.is_valid_table_name "users`" = false
  /\ Names.is_valid_table_name (" users" ++ Names.newline) = true
  /\ Names.match_word_line ("users" ++ Names.newline) = true
  /\ Names.sanitize_table_name "---" = "".
Proof. repeat split. Qed.



Example sort_tables_example :
  Names.sort_tables (fun n => negb (n =? "ghost"))
    [" users "; "order items"; "ghost"; "tasks"]
  = (["users"; "tasks"], ["order items"; "ghost"]).
Proof. reflexivity. Qed.

(* ================================================================== *)
(** ** The two type mappers *)
(* ================================================================== *)

(** X4.  The two type mappers give the same answer on every type string
    that, lower-cased, contains none of "tinyint(1)", "mail" and "time":
    these three are the only places where the programs differ. *)
Theorem type_mappers_agree (s : string) :
  contains "tinyint(1)" (lower s) = false ->
  contains "mail" (lower s) = false ->
  contains "time" (lower s) = false ->
  Basic.mysql_type_to_openapi_type s = Enhanced.mysql_type_to_openapi_type s.
Proof.
  intros Htiny Hmail Htime.
  assert (Hno : forall a b, contains b a = true -> contains b (lower s) = false ->
                  contains a (lower s) = false).
  { intros a b Hab Hb. destruct (contains a (lower s)) eqn:E; [|reflexivity].
    rewrite (contains_trans b a (lower s) Hab E) in Hb. discriminate. }
  assert (Hemail : contains "email" (lower s) = false) by (apply (Hno _ "mail"); auto).
  assert (Hdt : contains "datetime" (lower s) = false) by (apply (Hno _ "time"); auto).
  assert (Hts : contains "timestamp" (lower s) = false) by (apply (Hno _ "time"); auto).
  unfold Basic.mysql_type_to_openapi_type, Enhanced.mysql_type_to_openapi_type.
  cbv zeta. rewrite !lower_idem, Htiny, Hmail, Htime, Hemail, Hdt, Hts.
  rewrite !orb_false_r. split_rules; reflexivity.
Qed.

Lemma type_mappers_agree_witness :
  Basic.mysql_type_to_openapi_type "DECIMAL(10,2)"
  = Enhanced.mysql_type_to_openapi_type "DECIMAL(10,2)".
Proof.
  apply (type_mappers_agree "DECIMAL(10,2)"); reflexivity.
Defined.

Example type_mappers_differ :
  Basic.mysql_type_to_openapi_type "time" = [("type", VStr "string")]
  /\ Enhanced.mysql_type_to_openapi_type "time"
     = [("type", VStr "string"); ("format", VStr "time")]
  /\ Basic.mysql_type_to_openapi_type "mailbox"
     = [("type", VStr "string"); ("format", VStr "email")]
  /\ Enhanced.mysql_type_to_openapi_type "mailbox" = [("type", VStr "string")].
Proof. repeat split. Qed.

(** X5.  Whatever the type string, each mapper returns a type and at most a
    format, and the pair is one of ten: int32 and int64 go with integer
    only, double with number only, the date, time and email formats with
    string only, and boolean and object have no format. *)
Theorem type_mapper_kinds (s : string) :
  (exists k, In k field_kinds
             /\ Basic.mysql_type_to_openapi_type s = field_of_kind k)
  /\ (exists k, In k field_kinds
                /\ Enhanced.mysql_type_to_openapi_type s = field_of_kind k).
Proof.
  split.
  - unfold Basic.mysql_type_to_openapi_type. cbv zeta.
    split_rules;
      match goal with
      | |- exists k, _ /\ [("type", VStr ?t); ("format", VStr ?f)] = _ =>
          exists (t, Some f)
      | |- exists k, _ /\ [("type", VStr ?t)] = _ => exists (t, None)
      end; (split; [pick_member | reflexivity]).
  - unfold Enhanced.mysql_type_to_openapi_type. cbv zeta.
    split_rules;
      match goal with
      | |- exists k, _ /\ [("type", VStr ?t); ("format", VStr ?f)] = _ =>
          exists (t, Some f)
      | |- exists k, _ /\ [("type", VStr ?t)] = _ => exists (t, None)
      end; (split; [pick_member | reflexivity]).
Qed.

(* ================================================================== *)
(** ** Field decoration *)
(* ================================================================== *)

Ltac get_past_sets :=
  repeat (rewrite od_get_set_other by discriminate).

(** X6.  Decoration never changes the type the mapper gave to a column.
    The single-document generator keeps the format too; the per-table
    generator keeps it except for a column that is not a primary key and
    whose name contains "email", which gets the format email whatever its
    type. *)
Theorem decoration_keeps_type (table_name : string) (pk : option string)
    (c : column) :
  od_get "type" (Basic.decorate c)
    = od_get "type" (Basic.mysql_type_to_openapi_type (col_type c))
  /\ od_get "format" (Basic.decorate c)
     = od_get "format" (Basic.mysql_type_to_openapi_type (col_type c))
  /\ od_get "type" (Enhanced.decorate table_name pk c)
     = od_get "type" (Enhanced.mysql_type_to_openapi_type (col_type c))
  /\ od_get "format" (Enhanced.decorate table_name pk c)
     = if negb (is_pri c) && contains "email" (lower (col_name c))
       then Some (VStr "email")
       else od_get "format" (Enhanced.mysql_type_to_openapi_type (col_type c)).
Proof.
  unfold Basic.decorate, Basic.describe_by_name, Enhanced.decorate, is_pri.
  cbv zeta.
  set (b := Basic.mysql_type_to_openapi_type (col_type c)).
  set (e := Enhanced.mysql_type_to_openapi_type (col_type c)).
  split; [|split; [|split]].
  - split_rules; get_past_sets; reflexivity.
  - split_rules; get_past_sets; reflexivity.
  - split_rules; get_past_sets; reflexivity.
  - destruct (col_key c =? "PRI"); simpl negb; cbv iota.
    + simpl andb. cbv iota. get_past_sets. reflexivity.
    + simpl andb. destruct (contains "email" (lower (col_name c))).
      * get_past_sets. apply od_get_set_same.
      * split_rules; get_past_sets; reflexivity.
Qed.

Example email_counter :
  Enhanced.decorate "stats" None
    (mkColumn "email_count" "int(11)" "NO" "" None (Some ""))
  = [("type", VStr "integer"); ("format", VStr "email");
     ("description", VStr "Valid email address");
     ("example", VStr "user@example.com")].
Proof. reflexivity. Qed.

(** X7.  The type of the item path's parameter against the type of the
    primary key's field.  In the single-document generator the parameter is
    an integer exactly when the field is.  In the per-table generator the
    parameter is an integer exactly when the field is an integer or the
    field is the boolean made of a "tinyint(1)"; in every other case the
    parameter is a string. *)
Theorem path_parameter_type (native : string) :
  (vget "type" (Basic.pk_schema (lower native)) = Some (VStr "integer")
   <-> od_get "type" (Basic.mysql_type_to_openapi_type native)
       = Some (VStr "integer"))
  /\ (vget "type" (Enhanced.pk_schema (lower native)) = Some (VStr "integer")
      <-> od_get "type" (Enhanced.mysql_type_to_openapi_type native)
          = Some (VStr "integer")
          \/ (contains "tinyint(1)" (lower native) = true
              /\ od_get "type" (Enhanced.mysql_type_to_openapi_type native)
                 = Some (VStr "boolean")))
  /\ (vget "type" (Basic.pk_schema (lower native)) = Some (VStr "integer")
      \/ vget "type" (Basic.pk_schema (lower native)) = Some (VStr "string"))
  /\ (vget "type" (Enhanced.pk_schema (lower native)) = Some (VStr "integer")
      \/ vget "type" (Enhanced.pk_schema (lower native)) = Some (VStr "string")).
Proof.
  unfold Basic.pk_schema, Enhanced.pk_schema,
    Basic.mysql_type_to_openapi_type, Enhanced.mysql_type_to_openapi_type.
  cbv zeta.
  destruct (contains "int" (lower native)) eqn:Eint.
  - split; [|split; [|split]].
    + destruct (contains "bigint" (lower native)); simpl; tauto.
    + destruct (contains "bigint" (lower native)); simpl; [tauto|].
      destruct (contains "tinyint(1)" (lower native)); simpl; tauto.
    + left; reflexivity.
    + left; reflexivity.
  - assert (Htiny : contains "tinyint(1)" (lower native) = false).
    { destruct (contains "tinyint(1)" (lower native)) eqn:E; [|reflexivity].
      rewrite (contains_trans "int" "tinyint(1)" _ eq_refl E) in Eint.
      discriminate. }
    rewrite Htiny.
    split; [|split; [|split]].
    + split_rules; simpl; split; discriminate.
    + split_rules; simpl; (split; [discriminate | intros [H|[H _]]; discriminate]).
    + right; reflexivity.
    + right; reflexivity.
Qed.

Example tinyint_key :
  od_get "type" (Enhanced.mysql_type_to_openapi_type "tinyint(1)")
    = Some (VStr "boolean")
  /\ Enhanced.pk_schema "tinyint(1)"
     = VDict [("type", VStr "integer"); ("format", VStr "int64");
              ("minimum", VInt 1)].
Proof. split; reflexivity. Qed.

(* ================================================================== *)
(** ** The read schema and the write schema *)
(* ================================================================== *)

Section Schemas.

Lemma od_keys_set_new (k : string) (v : value) (d : dict) :
  ~ In k (od_keys d) -> od_keys (od_set k v d) = od_keys d ++ [k].
Proof.
  unfold od_keys. induction d as [|[k0 v0] d IH]; intros Hk; [reflexivity|].
  simpl in *. destruct (k0 =? k) eqn:E.
  - apply String.eqb_eq in E. tauto.
  - simpl. rewrite IH; tauto.
Qed.

Lemma od_keys_set_NoDup (k : string) (v : value) (d : dict) :
  NoDup (od_keys d) -> NoDup (od_keys (od_set k v d)).
Proof.
  unfold od_keys. induction d as [|[k0 v0] d IH]; intros Hd.
  - simpl. constructor; [tauto | constructor].
  - simpl. inversion Hd as [|? ? Hnotin Hd']; subst.
    destruct (k0 =? k) eqn:E; simpl.
    + constructor; assumption.
    + constructor; [|now apply IH].
      intros Hin. apply (od_keys_set k k0 v d) in Hin.
      destruct Hin as [->|Hin]; [|now apply Hnotin].
      rewrite String.eqb_refl in E. discriminate.
Qed.

Lemma od_get_del_same (k : string) (d : dict) :
  NoDup (od_keys d) -> od_get k (od_del k d) = None.
Proof.
  unfold od_keys. induction d as [|[k0 v0] d IH]; intros Hd; [reflexivity|].
  simpl in *. inversion Hd as [|? ? Hnotin Hd']; subst.
  destruct (k0 =? k) eqn:E.
  - apply String.eqb_eq in E. subst k0.
    destruct (od_get k d) eqn:G; [|reflexivity].
    exfalso. apply Hnotin. apply (od_get_some_key k d). eauto.
  - simpl. rewrite E. now apply IH.
Qed.

Lemma od_get_not_key (k : string) (d : dict) :
  ~ In k (od_keys d) -> od_get k d = None.
Proof.
  intros H. destruct (od_get k d) eqn:G; [|reflexivity].
  exfalso. apply H. apply od_get_some_key. eauto.
Qed.

Lemma basic_type_NoDup (s : string) :
  NoDup (od_keys (Basic.mysql_type_to_openapi_type s)).
Proof.
  unfold Basic.mysql_type_to_openapi_type. cbv zeta.
  split_rules; repeat constructor; simpl; intuition discriminate.
Qed.

Lemma enhanced_type_NoDup (s : string) :
  NoDup (od_keys (Enhanced.mysql_type_to_openapi_type s)).
Proof.
  unfold Enhanced.mysql_type_to_openapi_type. cbv zeta.
  split_rules; repeat constructor; simpl; intuition discriminate.
Qed.

Lemma basic_decorate_NoDup (c : column) : NoDup (od_keys (Basic.decorate c)).
Proof.
  unfold Basic.decorate, Basic.describe_by_name. cbv zeta.
  split_rules; repeat apply od_keys_set_NoDup; apply basic_type_NoDup.
Qed.

Lemma enhanced_decorate_NoDup (table_name : string) (pk : option string)
    (c : column) :
  NoDup (od_keys (Enhanced.decorate table_name pk c)).
Proof.
  unfold Enhanced.decorate. cbv zeta.
  split_rules; repeat apply od_keys_set_NoDup; apply enhanced_type_NoDup.
Qed.

Lemma without_readOnly_clean (d : dict) :
  NoDup (od_keys d) ->
  od_get "readOnly" (Basic.without_readOnly d) = None
  /\ od_get "readOnly" (Enhanced.without_readOnly d) = None.
Proof.
  intros Hd. unfold Basic.without_readOnly, Enhanced.without_readOnly, od_mem.
  destruct (od_get "readOnly" d) eqn:G.
  - split; now apply od_get_del_same.
  - split; exact G.
Qed.

Lemma NoDup_snoc_names (l : list column) (c : column) :
  NoDup (map col_name (l ++ [c])) ->
  NoDup (map col_name l) /\ ~ In (col_name c) (map col_name l).
Proof.
  rewrite map_app. simpl. intros H.
  split.
  - apply NoDup_remove_1 in H. now rewrite app_nil_r in H.
  - apply NoDup_remove_2 in H. now rewrite app_nil_r in H.
Qed.

Lemma read_schema_step (l : list column) (ts : schema) (c : column) (v : value) :
  required ts = map col_name (filter (fun c => negb (is_nullable c)) l) ->
  (NoDup (map col_name l) -> od_keys (properties ts) = map col_name l) ->
  (if negb (is_nullable c) then required ts ++ [col_name c] else required ts)
  = map col_name (filter (fun c => negb (is_nullable c)) (l ++ [c]))
  /\ (NoDup (map col_name (l ++ [c])) ->
      od_keys (od_set (col_name c) v (properties ts)) = map col_name (l ++ [c])).
Proof.
  intros Hreq Hkeys. split.
  - rewrite filter_app, map_app, Hreq. simpl.
    destruct (negb (is_nullable c)); simpl; [reflexivity | now rewrite app_nil_r].
  - intros Hnd. apply NoDup_snoc_names in Hnd. destruct Hnd as [Hnd Hnew].
    rewrite map_app. simpl. rewrite <- (Hkeys Hnd).
    apply od_keys_set_new. now rewrite (Hkeys Hnd).
Qed.

End Schemas.

(** X8.  In both generators the read schema requires exactly the columns
    that are not nullable, in the order of the columns; and when the column
    names are distinct its properties are exactly the columns, one property
    per column and in the same order. *)
Theorem read_schema_lists_columns (table_name : string) (columns : list column) :
  let not_null := filter (fun c => negb (is_nullable c)) columns in
  (required (table_schema (Basic.build_schemas columns)) = map col_name not_null
   /\ required (table_schema (Enhanced.build_schemas table_name columns))
      = map col_name not_null)
  /\ (NoDup (map col_name columns) ->
      od_keys (properties (table_schema (Basic.build_schemas columns)))
        = map col_name columns
      /\ od_keys (properties
            (table_schema (Enhanced.build_schemas table_name columns)))
         = map col_name columns).
Proof.
  intros not_null. subst not_null.
  assert (Hb : read_schema_ok columns (Basic.build_schemas columns)).
  { unfold Basic.build_schemas. apply loop_invariant.
    - split; [reflexivity | intros _; reflexivity].
    - intros l st c [Hreq Hkeys]. unfold read_schema_ok, Basic.column_step.
      cbv zeta. cbn [table_schema required properties].
      now apply read_schema_step. }
  assert (He : read_schema_ok columns (Enhanced.build_schemas table_name columns)).
  { unfold Enhanced.build_schemas. apply loop_invariant.
    - split; [reflexivity | intros _; reflexivity].
    - intros l st c [Hreq Hkeys]. unfold read_schema_ok, Enhanced.column_step.
      cbv zeta. cbn [table_schema required properties].
      now apply read_schema_step. }
  destruct Hb as [Hb1 Hb2], He as [He1 He2].
  split; [split; assumption|].
  intros Hnd. split; auto.
Qed.

Lemma read_schema_lists_columns_witness :
  od_keys (properties (table_schema (Basic.build_schemas users_columns)))
    = ["id"; "email"; "created_at"]
  /\ od_keys (properties (table_schema (Enhanced.build_schemas "users" users_columns)))
     = ["id"; "email"; "created_at"].
Proof.
  apply (proj2 (read_schema_lists_columns "users" users_columns)).
  simpl. repeat constructor; simpl; intuition discriminate.
Defined.

Section WriteProperties.

Variable table_name : string.

Lemma type_not_readOnly (s : string) :
  od_get "readOnly" (Basic.mysql_type_to_openapi_type s) = None
  /\ od_get "readOnly" (Enhanced.mysql_type_to_openapi_type s) = None.
Proof.
  unfold Basic.mysql_type_to_openapi_type, Enhanced.mysql_type_to_openapi_type.
  cbv zeta. split; split_rules; reflexivity.
Qed.

(** The per-table decoration sets [readOnly] to [True] or not at all. *)
Lemma enhanced_readOnly_value (pk : option string) (c : column) :
  od_get "readOnly" (Enhanced.decorate table_name pk c) = None
  \/ od_get "readOnly" (Enhanced.decorate table_name pk c) = Some (VBool true).
Proof.
  unfold Enhanced.decorate. cbv zeta.
  destruct (type_not_readOnly (col_type c)) as [_ Hm].
  split_rules; get_past_sets;
    first [left; exact Hm | right; apply od_get_set_same].
Qed.

Lemma enhanced_kept_unchanged (pk : option string) (c : column) :
  od_get_truthy "readOnly" (Enhanced.decorate table_name pk c) = false ->
  Enhanced.without_readOnly (Enhanced.decorate table_name pk c)
  = Enhanced.decorate table_name pk c.
Proof.
  unfold od_get_truthy, Enhanced.without_readOnly, od_mem.
  destruct (enhanced_readOnly_value pk c) as [-> | ->];
    [reflexivity | discriminate].
Qed.

Lemma write_schema_step (clean : dict -> dict) (l : list column)
    (st : loop_state) (c : column) (d : dict) (keep : bool)
    (req_t req_n : list string) (pk : option string) (auto : bool) :
  (keep = true -> od_get "readOnly" (clean d) = None) ->
  write_schema_ok clean l st ->
  write_schema_ok clean (l ++ [c])
    (mkLoop (mkSchema (od_set (col_name c) (VDict d)
                         (properties (table_schema st))) req_t)
            (if keep
             then mkSchema (od_set (col_name c) (VDict (clean d))
                              (properties (new_table_schema st))) req_n
             else new_table_schema st)
            pk auto).
Proof.
  intros Hclean [Hkeys [Hvals Hsame]]. unfold write_schema_ok.
  set (ts := table_schema st) in *. set (ns := new_table_schema st) in *.
  cbn [new_table_schema table_schema properties] in *.
  split; [|split].
  - intros k Hk. rewrite map_app, in_app_iff. simpl.
    destruct keep; cbn [properties] in Hk.
    + apply od_keys_set in Hk. destruct Hk as [->|Hk]; auto.
    + auto.
  - intros k v Hget.
    destruct (String.eqb_spec (col_name c) k) as [<-|Hne].
    + destruct keep; cbn [properties] in Hget.
      * rewrite od_get_set_same in Hget. injection Hget as <-.
        exists (clean d). split; [reflexivity|]. split; [now apply Hclean|].
        apply od_keys_set. now left.
      * destruct (Hvals _ _ Hget) as [d' [Hv [Hro Hin]]].
        exists d'. split; [exact Hv|]. split; [exact Hro|].
        apply od_keys_set. now left.
    + assert (Hold : od_get k (properties ns) = Some v).
      { destruct keep; cbn [properties] in Hget; [|exact Hget].
        now rewrite od_get_set_other in Hget. }
      destruct (Hvals _ _ Hold) as [d' [Hv [Hro Hin]]].
      exists d'. split; [exact Hv|]. split; [exact Hro|].
      apply od_keys_set. now right.
  - intros Hnd k v Hget. apply NoDup_snoc_names in Hnd. destruct Hnd as [Hnd Hnew].
    destruct (String.eqb_spec (col_name c) k) as [<-|Hne].
    + rewrite od_get_set_same.
      destruct keep; cbn [properties] in Hget.
      * rewrite od_get_set_same in Hget. injection Hget as <-. eauto.
      * exfalso. apply Hnew, Hkeys. apply od_get_some_key. eauto.
    + rewrite od_get_set_other by assumption.
      apply (Hsame Hnd).
      destruct keep; cbn [properties] in Hget; [|exact Hget].
      now rewrite od_get_set_other in Hget.
Qed.

Lemma basic_write_schema_ok (columns : list column) :
  write_schema_ok Basic.without_readOnly columns (Basic.build_schemas columns).
Proof.
  unfold Basic.build_schemas. apply loop_invariant.
  - split; [intros k []|split]; [|intros _]; intros k v H; discriminate H.
  - intros l st c IH. unfold Basic.column_step. cbv zeta.
    apply write_schema_step; [|exact IH].
    intros _. apply without_readOnly_clean, basic_decorate_NoDup.
Qed.

Lemma enhanced_write_schema_ok (columns : list column) :
  write_schema_ok (fun d => d) columns
    (Enhanced.build_schemas table_name columns).
Proof.
  unfold Enhanced.build_schemas. apply loop_invariant.
  - split; [intros k []|split]; [|intros _]; intros k v H; discriminate H.
  - intros l st c IH. unfold Enhanced.column_step. cbv zeta.
    set (pk := if is_pri c then Some (col_name c) else primary_key_column st).
    set (d := Enhanced.decorate table_name pk c).
    assert (Hkeep : forall b,
               b && negb (od_get_truthy "readOnly" d) = true ->
               Enhanced.without_readOnly d = d /\ od_get "readOnly" d = None).
    { intros b Hb. apply andb_prop in Hb. destruct Hb as [_ Hb].
      apply negb_true_iff in Hb.
      split; [now apply enhanced_kept_unchanged|].
      unfold od_get_truthy in Hb.
      destruct (enhanced_readOnly_value pk c) as [H|H]; fold d in H;
        [exact H | rewrite H in Hb; discriminate]. }
    match goal with
    | |- context [if ?b && negb (od_get_truthy "readOnly" d) then _ else _] =>
        specialize (Hkeep b);
        destruct (b && negb (od_get_truthy "readOnly" d)) eqn:Ek
    end.
    + destruct (Hkeep eq_refl) as [Hsame Hnone]. rewrite Hsame.
      apply (write_schema_step (fun d => d) l st c d true); [auto | exact IH].
    + apply (write_schema_step (fun d => d) l st c d false) with (req_n := []);
        [discriminate | exact IH].
Qed.

End WriteProperties.

(** X9.  In both generators every property of the write schema is a
    dictionary without [readOnly] whose name is also a property of the read
    schema.  When the column names are distinct, a write property of the
    single-document generator is the read property with [readOnly] removed,
    and a write property of the per-table generator is the read property
    itself. *)
Theorem write_schema_properties (table_name : string) (columns : list column)
    (k : string) (v : value) :
  let basic := Basic.build_schemas columns in
  let enhanced := Enhanced.build_schemas table_name columns in
  (od_get k (properties (new_table_schema basic)) = Some v ->
   exists d, v = VDict d /\ od_get "readOnly" d = None
             /\ In k (od_keys (properties (table_schema basic))))
  /\ (od_get k (properties (new_table_schema enhanced)) = Some v ->
      exists d, v = VDict d /\ od_get "readOnly" d = None
                /\ In k (od_keys (properties (table_schema enhanced))))
  /\ (NoDup (map col_name columns) ->
      (od_get k (properties (new_table_schema basic)) = Some v ->
       exists d, od_get k (properties (table_schema basic)) = Some (VDict d)
                 /\ v = VDict (Basic.without_readOnly d))
      /\ (od_get k (properties (new_table_schema enhanced)) = Some v ->
          od_get k (properties (table_schema enhanced)) = Some v)).
Proof.
  intros basic enhanced.
  destruct (basic_write_schema_ok columns) as [_ [Hb1 Hb2]].
  destruct (enhanced_write_schema_ok table_name columns) as [_ [He1 He2]].
  split; [apply Hb1 | split; [apply He1|]].
  intros Hnd. split; [apply (Hb2 Hnd)|].
  intros Hget. destruct (He2 Hnd _ _ Hget) as [d [Hd ->]]. exact Hd.
Qed.

Lemma write_schema_properties_witness :
  od_get "email"
    (properties (table_schema (Enhanced.build_schemas "users" users_columns)))
  = Some (VDict [("type", VStr "string"); ("format", VStr "email");
                 ("description", VStr "Valid email address");
                 ("example", VStr "user@example.com")]).
Proof.
  assert (Hnd : NoDup (map col_name users_columns)).
  { simpl. repeat constructor; simpl; intuition discriminate. }
  apply (proj2 (proj2 (proj2 (write_schema_properties "users" users_columns
                                "email" _)) Hnd)).
  reflexivity.
Defined.

(* ================================================================== *)
(** ** More on the query-parameter advisor *)
(* ================================================================== *)

(** X10.  Whatever the table and its columns, the advisor's parameters have
    pairwise distinct names, and each of them is a query parameter that is
    not required. *)
Theorem query_parameters_well_formed (columns : list column) (table_name : string) :
  let params := Enhanced.add_smart_query_params columns table_name in
  NoDup (map (vget "name") params)
  /\ Forall (fun p => vget "in" p = Some (VStr "query")
                      /\ vget "required" p = Some (VBool false)
                      /\ exists n, vget "name" p = Some (VStr n)) params.
Proof.
  intros params. subst params.
  unfold Enhanced.add_smart_query_params.
  destruct (negb _); [split; constructor|]. cbv zeta.
  unfold Enhanced.table_specific_params, Enhanced.user_params,
    Enhanced.task_params, Enhanced.contact_params, Enhanced.notification_params,
    Enhanced.date_range_params, Enhanced.search_params,
    Enhanced.pagination_params.
  cbv zeta.
  split_rules; cbn [app map]; split;
    first
      [ repeat constructor; cbn [In]; intuition discriminate
      | repeat (constructor; [repeat split; eexists; reflexivity|]);
        constructor ].
Qed.

(** X11.  A searchable table gets the [search] parameter exactly when at
    least two of its columns have a type that contains "varchar" or "text";
    a table with a single text column gets none. *)
Theorem search_parameter_iff (columns : list column) (table_name : string) :
  Enhanced.should_generate_query_params_individual table_name = true ->
  (In (Some (VStr "search"))
      (map (vget "name") (Enhanced.add_smart_query_params columns table_name))
   <-> 2 <= List.length (Enhanced.text_columns columns)).
Proof.
  intros Hyes.
  unfold Enhanced.add_smart_query_params. rewrite Hyes. cbv zeta.
  change (negb true) with false. cbv iota.
  unfold Enhanced.search_params. cbv zeta.
  destruct (Enhanced.text_columns columns) as [|a [|b r]];
    cbn [List.length Nat.ltb Nat.leb andb];
    unfold Enhanced.table_specific_params, Enhanced.user_params,
      Enhanced.task_params, Enhanced.contact_params,
      Enhanced.notification_params, Enhanced.date_range_params,
      Enhanced.pagination_params;
    split_rules; cbn [app map];
    (split;
     [ intros H; first [lia | exfalso; cbn [In] in H; intuition discriminate]
     | intros H; first [pick_member | exfalso; lia] ]).
Qed.

Lemma search_parameter_iff_witness :
  ~ In (Some (VStr "search"))
       (map (vget "name") (Enhanced.add_smart_query_params users_columns "users")).
Proof.
  intros H.
  apply (proj1 (search_parameter_iff users_columns "users" eq_refl)) in H.
  vm_compute in H. lia.
Defined.

Section Classification.

Lemma lower_append (a b : string) : lower (a ++ b) = (lower a ++ lower b)%string.
Proof. induction a as [|c a IH]; simpl; [reflexivity | now rewrite IH]. Qed.

Lemma contains_extend (frag t p q : string) :
  contains frag (lower t) = true ->
  contains frag (lower (p ++ t ++ q)) = true.
Proof.
  intros H. apply (contains_trans frag (lower t)); [exact H|].
  apply contains_iff. exists (lower p), (lower q).
  now rewrite !lower_append.
Qed.

Lemma any_in_extend (frags : list string) (t p q : string) :
  Enhanced.any_in frags (lower t) = true ->
  Enhanced.any_in frags (lower (p ++ t ++ q)) = true.
Proof.
  unfold Enhanced.any_in. rewrite !existsb_exists.
  intros [frag [Hin Hc]]. exists frag. split; [exact Hin|].
  now apply contains_extend.
Qed.

End Classification.

(** X12.  The classification looks at fragments of the lower-cased name, so
    it survives any text put before and after the name: a name denied as a
    system table stays denied, and a searchable name stays searchable unless
    the longer name contains a system fragment. *)
Theorem classification_extends (t p q : string) :
  (Enhanced.any_in Enhanced.system_tables (lower t) = true ->
   Enhanced.should_generate_query_params_individual (p ++ t ++ q) = false)
  /\ (Enhanced.should_generate_query_params_individual t = true ->
      Enhanced.any_in Enhanced.system_tables (lower (p ++ t ++ q)) = false ->
      Enhanced.should_generate_query_params_individual (p ++ t ++ q) = true).
Proof.
  unfold Enhanced.should_generate_query_params_individual. cbv zeta. split.
  - intros H. now rewrite (any_in_extend _ t p q H).
  - destruct (Enhanced.any_in Enhanced.system_tables (lower t)); [discriminate|].
    intros H Hsys. rewrite Hsys.
    apply orb_prop in H. destruct H as [H|H];
      rewrite (any_in_extend _ t p q H); [reflexivity | apply orb_true_r].
Qed.

Lemma classification_extends_witness :
  Enhanced.should_generate_query_params_individual "old_Audit_Users_2020" = false
  /\ Enhanced.should_generate_query_params_individual "app_Users_v2" = true.
Proof.
  split.
  - apply (proj1 (classification_extends "Audit_Users" "old_" "_2020")).
    reflexivity.
  - apply (proj2 (classification_extends "Users" "app_" "_v2")); reflexivity.
Defined.

(* ================================================================== *)
(** ** Schema names *)
(* ================================================================== *)

Section SchemaNames.

Lemma length_lower (s : string) : String.length (lower s) = String.length s.
Proof. induction s; simpl; congruence. Qed.

Lemma length_capitalize (s : string) :
  String.length (capitalize s) = String.length s.
Proof. destruct s; simpl; [reflexivity | now rewrite length_lower]. Qed.

Lemma length_drop_last (s : string) :
  String.length (drop_last s) = String.length s - 1.
Proof.
  induction s as [|c r IH]; [reflexivity|].
  destruct r as [|c' r']; [reflexivity|].
  change (drop_last (String c (String c' r')))
    with (String c (drop_last (String c' r'))).
  simpl String.length in *. rewrite IH. lia.
Qed.

(** The singular of a schema name is shorter by one character at most. *)
Lemma length_singular (table_name : string) :
  String.length (capitalize table_name) - 1
  <= String.length (if endswith (capitalize table_name) "s"
                    then drop_last (capitalize table_name)
                    else capitalize table_name).
Proof.
  destruct (endswith _ _); [rewrite length_drop_last|]; lia.
Qed.

(** A name made of a prefix of two characters or more and the singular is
    not the schema name. *)
Lemma prefixed_singular_differs (prefix table_name : string) :
  2 <= String.length prefix ->
  capitalize table_name
  <> (prefix ++ (if endswith (capitalize table_name) "s"
                 then drop_last (capitalize table_name)
                 else capitalize table_name))%string.
Proof.
  intros Hp H. apply (f_equal String.length) in H.
  rewrite length_append in H.
  pose proof (length_singular table_name). lia.
Qed.

Lemma lower_ascii_not_upper (c : ascii) : is_upper (lower_ascii c) = false.
Proof. destruct c as [[] [] [] [] [] [] [] []]; reflexivity. Qed.

Lemma lower_no_upper (s : string) :
  existsb is_upper (list_ascii_of_string (lower s)) = false.
Proof.
  induction s as [|c r IH]; [reflexivity|].
  simpl. now rewrite lower_ascii_not_upper, IH.
Qed.

(** [capitalize] leaves no capital after the first character. *)
Lemma capitalize_not_PaginationMeta (table_name : string) :
  capitalize table_name <> "PaginationMeta".
Proof.
  destruct table_name as [|c r]; [discriminate|].
  unfold capitalize. intros H. injection H as _ H.
  pose proof (lower_no_upper r) as Hr. rewrite H in Hr. discriminate Hr.
Qed.

End SchemaNames.

(** X13.  For every table name the four schema names of the per-table
    document are pairwise different: the schemas map has exactly four
    entries, in this order, each name with its own schema, none of them
    overwritten. *)
Theorem component_schemas_distinct (table_name : string) (st : loop_state) :
  Enhanced.component_schemas table_name st
  = [(Enhanced.schema_name table_name, schema_value (table_schema st));
     (Enhanced.new_schema_name table_name, schema_value (new_table_schema st));
     (Enhanced.update_schema_name table_name,
      schema_value (Enhanced.update_table_schema (new_table_schema st)));
     ("PaginationMeta", Enhanced.pagination_meta)].
Proof.
  assert (H1 : (Enhanced.schema_name table_name
                =? Enhanced.new_schema_name table_name) = false).
  { apply String.eqb_neq. apply (prefixed_singular_differs "Create").
    simpl; lia. }
  assert (H2 : (Enhanced.schema_name table_name
                =? Enhanced.update_schema_name table_name) = false).
  { apply String.eqb_neq. apply (prefixed_singular_differs "Update").
    simpl; lia. }
  assert (H3 : (Enhanced.schema_name table_name =? "PaginationMeta") = false).
  { apply String.eqb_neq. apply capitalize_not_PaginationMeta. }
  assert (H4 : (Enhanced.new_schema_name table_name
                =? Enhanced.update_schema_name table_name) = false) by reflexivity.
  assert (H5 : (Enhanced.new_schema_name table_name =? "PaginationMeta") = false)
    by reflexivity.
  assert (H6 : (Enhanced.update_schema_name table_name =? "PaginationMeta") = false)
    by reflexivity.
  unfold Enhanced.component_schemas, od_of_pairs.
  cbn [fold_left fst snd od_set].
  rewrite H1. cbn [od_set]. rewrite H2, H4. cbn [od_set].
  rewrite H3, H5, H6. reflexivity.
Qed.

Example paginationmeta_table :
  od_keys (Enhanced.component_schemas "paginationmeta" loop_init)
  = ["Paginationmeta"; "CreatePaginationmeta"; "UpdatePaginationmeta";
     "PaginationMeta"].
Proof. reflexivity. Qed.

(* ================================================================== *)
(** ** The single document as the tables go by *)
(* ================================================================== *)

Lemma basic_names_differ (table_name : string) :
  Basic.new_schema_name table_name <> Basic.schema_name table_name.
Proof.
  intros H. symmetry in H. revert H.
  apply (prefixed_singular_differs "New"). simpl; lia.
Qed.

Lemma basic_run_snoc (before : list table_input) (t : table_input) :
  Basic.run (before ++ [t])
  = try_continue (Basic.process_table t) (Basic.run before).
Proof. unfold Basic.run. now rewrite for_each_try_app. Qed.

(** X14.  In the single document the last table processed under a name
    owns it: after a table with rows has been processed, its read schema,
    its write schema and its collection path are the ones found under its
    names, whatever earlier tables had put there, and its name is the last
    of [processed_tables].  The exported document always carries the error
    schema under the name Error. *)
Theorem last_table_wins (before : list table_input) (t : table_input)
    (c0 : column) (rest : list column) :
  tbl_describe t = Ok (c0 :: rest) ->
  let s := Basic.run (before ++ [t]) in
  let st := Basic.build_schemas (c0 :: rest) in
  od_get (Basic.schema_name (tbl_name t)) (Basic.schemas s)
    = Some (schema_value (table_schema st))
  /\ od_get (Basic.new_schema_name (tbl_name t)) (Basic.schemas s)
     = Some (schema_value (new_table_schema st))
  /\ od_get (Basic.collection_key (tbl_name t)) (Basic.paths s)
     = Some (Basic.collection_path (tbl_name t))
  /\ Basic.processed_tables s
     = Basic.processed_tables (Basic.run before) ++ [tbl_name t]
  /\ vpath ["components"; "schemas"; "Error"] (Basic.document s)
     = Some Basic.error_schema.
Proof.
  intros Hd s st. subst s st. rewrite basic_run_snoc.
  assert (Herr : forall s, vpath ["components"; "schemas"; "Error"]
                             (Basic.document s) = Some Basic.error_schema).
  { intros s.
    change (vpath ["components"; "schemas"; "Error"] (Basic.document s))
      with (vpath ["Error"]
              (VDict (od_set "Error" Basic.error_schema (Basic.schemas s)))).
    rewrite vpath_one. apply od_get_set_same. }
  pose proof (basic_names_differ (tbl_name t)) as Hnames.
  unfold try_continue.
  destruct (basic_process_shape t c0 rest (Basic.run before) Hd)
    as [[pk [native [c [_ [_ [_ [_ Hrun]]]]]]] | [_ Hrun]];
    rewrite Hrun;
    cbn [fst Basic.schemas Basic.paths Basic.processed_tables
         Basic.mark_processed Basic.set_path Basic.set_schema];
    (split; [rewrite od_get_set_other by exact Hnames; apply od_get_set_same|]);
    (split; [apply od_get_set_same|]);
    (split; [|split; [reflexivity | apply Herr]]).
  - rewrite od_get_set_other; [apply od_get_set_same|].
    intros H. symmetry in H. apply String.eqb_eq in H.
    rewrite basic_item_key_not_collection in H. discriminate.
  - apply od_get_set_same.
Qed.

Lemma last_table_wins_witness :
  let earlier := mkTable "Users" (Ok natural_key_columns) in
  let later := mkTable "users" (Ok users_columns) in
  od_get "Users" (Basic.schemas (Basic.run ([earlier] ++ [later])))
  = Some (schema_value (table_schema (Basic.build_schemas users_columns))).
Proof.
  intros earlier later.
  apply (last_table_wins [earlier] later
           (mkColumn "id" "int(11)" "NO" "PRI" None (Some "auto_increment"))
           [mkColumn "email" "varchar(255)" "NO" "" None (Some "");
            mkColumn "created_at" "timestamp" "YES" "" None (Some "")]).
  reflexivity.
Defined.

Section DocumentPaths.

Lemma basic_step_paths (t : table_input) (s : Basic.run_state) :
  let s' := try_continue (Basic.process_table t) s in
  (forall k, In k (od_keys (Basic.paths s)) -> In k (od_keys (Basic.paths s')))
  /\ (forall k, In k (od_keys (Basic.schemas s)) ->
                In k (od_keys (Basic.schemas s')))
  /\ (has_rows t = true ->
      In (Basic.collection_key (tbl_name t)) (od_keys (Basic.paths s'))
      /\ In (Basic.schema_name (tbl_name t)) (od_keys (Basic.schemas s'))
      /\ In (Basic.new_schema_name (tbl_name t)) (od_keys (Basic.schemas s')))
  /\ (forall k, In k (od_keys (Basic.paths s')) ->
                In k (od_keys (Basic.paths s)) \/ path_of_table t k).
Proof.
  intros s'. subst s'. unfold try_continue, has_rows, path_of_table, has_rows.
  destruct (tbl_describe t) as [[|c0 rest]|e] eqn:Hd.
  - rewrite (basic_process_empty t s Hd). cbn [fst].
    repeat split; auto; discriminate.
  - destruct (basic_process_shape t c0 rest s Hd)
      as [[pk [native [c [Hin [Hpri [Hname [_ Hrun]]]]]]] | [_ Hrun]];
      rewrite Hrun;
      cbn [fst Basic.schemas Basic.paths Basic.mark_processed Basic.set_path
           Basic.set_schema];
      (split; [intros k Hk; repeat (apply od_keys_set; right); exact Hk|]);
      (split; [intros k Hk; repeat (apply od_keys_set; right); exact Hk|]);
      split.
    + intros _. split; [|split].
      * apply od_keys_set. right. apply od_keys_set. now left.
      * apply od_keys_set. right. apply od_keys_set. now left.
      * apply od_keys_set. now left.
    + intros k Hk. apply od_keys_set in Hk. destruct Hk as [->|Hk].
      * right. split; [reflexivity|]. right. exists c, (c0 :: rest).
        subst pk. auto.
      * apply od_keys_set in Hk. destruct Hk as [->|Hk]; auto.
    + intros _. split; [|split].
      * apply od_keys_set. now left.
      * apply od_keys_set. right. apply od_keys_set. now left.
      * apply od_keys_set. now left.
    + intros k Hk. apply od_keys_set in Hk. destruct Hk as [->|Hk]; auto.
  - rewrite (basic_process_failure t e s Hd). cbn [fst].
    repeat split; auto; discriminate.
Qed.

Lemma basic_run_paths (tables : list table_input) (s : Basic.run_state) :
  let s' := for_each_try Basic.process_table tables s in
  (forall k, In k (od_keys (Basic.paths s)) -> In k (od_keys (Basic.paths s')))
  /\ (forall k, In k (od_keys (Basic.schemas s)) ->
                In k (od_keys (Basic.schemas s')))
  /\ (forall t, In t tables -> has_rows t = true ->
      In (Basic.collection_key (tbl_name t)) (od_keys (Basic.paths s'))
      /\ In (Basic.schema_name (tbl_name t)) (od_keys (Basic.schemas s'))
      /\ In (Basic.new_schema_name (tbl_name t)) (od_keys (Basic.schemas s')))
  /\ (forall k, In k (od_keys (Basic.paths s')) ->
                In k (od_keys (Basic.paths s))
                \/ exists t, In t tables /\ path_of_table t k).
Proof.
  revert s. induction tables as [|t l IH]; intros s s'; subst s'.
  - cbn [for_each_try fold_left].
    split; [auto|]. split; [auto|]. split; [intros x []|auto].
  - change (for_each_try Basic.process_table (t :: l) s)
      with (for_each_try Basic.process_table l
              (try_continue (Basic.process_table t) s)).
    destruct (basic_step_paths t s) as [Hp [Hs [Hnew Hfrom]]].
    destruct (IH (try_continue (Basic.process_table t) s))
      as [Hp' [Hs' [Hnew' Hfrom']]].
    split; [auto|]. split; [auto|]. split.
    + intros x [<-|Hx] Hrows.
      * destruct (Hnew Hrows) as [H1 [H2 H3]]. auto.
      * now apply Hnew'.
    + intros k Hk. destruct (Hfrom' k Hk) as [Hk'|[x [Hx Hpath]]].
      * destruct (Hfrom k Hk') as [Hk''|Hpath]; [now left|].
        right. exists t. split; [now left | exact Hpath].
      * right. exists x. split; [now right | exact Hpath].
Qed.

End DocumentPaths.

(** X15.  The single document holds what the tables with rows put into it
    and nothing else: each such table has its collection path and its two
    schemas in the document, every path of the document is the collection
    path of such a table or its item path under one of its primary-key
    columns, and [processed_tables] lists them in order. *)
Theorem document_paths_from_tables (tables : list table_input) :
  let s := Basic.run tables in
  (forall t, In t tables -> has_rows t = true ->
     In (Basic.collection_key (tbl_name t)) (od_keys (Basic.paths s))
     /\ In (Basic.schema_name (tbl_name t)) (od_keys (Basic.schemas s))
     /\ In (Basic.new_schema_name (tbl_name t)) (od_keys (Basic.schemas s)))
  /\ (forall k, In k (od_keys (Basic.paths s)) ->
        exists t, In t tables /\ path_of_table t k)
  /\ Basic.processed_tables s = map tbl_name (filter has_rows tables).
Proof.
  intros s. subst s. unfold Basic.run.
  destruct (basic_run_paths tables Basic.run_init) as [_ [_ [Hnew Hfrom]]].
  split; [exact Hnew|]. split.
  - intros k Hk. destruct (Hfrom k Hk) as [[]|H]. exact H.
  - apply basic_processed.
Qed.

Lemma document_paths_from_tables_witness :
  exists t,
    In t [mkTable "ghost" (Raise "ProgrammingError");
          mkTable "users" (Ok users_columns)]
    /\ path_of_table t "/users/{id}".
Proof.
  apply (proj1 (proj2 (document_paths_from_tables
                         [mkTable "ghost" (Raise "ProgrammingError");
                          mkTable "users" (Ok users_columns)]))).
  vm_compute. auto.
Defined.

(* ================================================================== *)
(** ** The per-table export and its index *)
(* ================================================================== *)

Section EnhancedRun.

Variable sink : string -> result unit.

Lemma enhanced_effect_cases (t : table_input) (s : Enhanced.run_state) :
  (wrote sink t = false /\ enhanced_effect sink t s = s)
  \/ (wrote sink t = true
      /\ exists doc,
           enhanced_effect sink t s
           = (if Enhanced.should_generate_query_params_individual (tbl_name t)
              then Enhanced.add_searchable (tbl_name t)
              else Enhanced.add_system (tbl_name t))
               (Enhanced.add_generated (Enhanced.output_file (tbl_name t))
                  (Enhanced.write_file (Enhanced.output_file (tbl_name t)) doc s))).
Proof.
  unfold wrote, has_rows, sink_ok, enhanced_effect.
  destruct (tbl_describe t) as [[|c0 rest]|e]; auto.
  destruct (enhanced_create_ok (tbl_name t) (c0 :: rest)) as [doc ->].
  destruct (sink _); [right; eauto | left; auto].
Qed.

Lemma enhanced_run_from (tables : list table_input) (s : Enhanced.run_state) :
  let s' := for_each_try (Enhanced.process_table sink) tables s in
  let names := map tbl_name (filter (wrote sink) tables) in
  Enhanced.generated_files s'
    = Enhanced.generated_files s ++ map Enhanced.output_file names
  /\ map fst (Enhanced.written s')
     = map fst (Enhanced.written s) ++ map Enhanced.output_file names
  /\ Enhanced.searchable_apis s'
     = Enhanced.searchable_apis s
       ++ filter Enhanced.should_generate_query_params_individual names
  /\ Enhanced.system_apis s'
     = Enhanced.system_apis s
       ++ filter (fun n => negb (Enhanced.should_generate_query_params_individual n))
            names.
Proof.
  revert s. induction tables as [|t l IH]; intros s.
  - cbn. now rewrite !app_nil_r.
  - change (for_each_try (Enhanced.process_table sink) (t :: l) s)
      with (for_each_try (Enhanced.process_table sink) l
              (try_continue (Enhanced.process_table sink t) s)).
    cbv zeta in *. rewrite enhanced_step.
    destruct (IH (enhanced_effect sink t s)) as [H1 [H2 [H3 H4]]].
    rewrite H1, H2, H3, H4. clear H1 H2 H3 H4.
    cbn [filter].
    destruct (enhanced_effect_cases t s) as [[-> ->] | [-> [doc ->]]].
    + auto.
    + cbn [map filter].
      destruct (Enhanced.should_generate_query_params_individual (tbl_name t));
        cbn [Enhanced.generated_files Enhanced.written Enhanced.searchable_apis
             Enhanced.system_apis Enhanced.add_searchable Enhanced.add_system
             Enhanced.add_generated Enhanced.write_file negb];
        rewrite ?map_app; cbn [map fst]; rewrite <- !app_assoc; auto.
Qed.

Lemma od_of_pairs_lookup (l : list (string * value)) (k : string) (v : value) :
  od_get k (od_of_pairs l) = Some v -> In (k, v) l.
Proof.
  unfold od_of_pairs.
  assert (G : forall d, od_get k (fold_left
                (fun d kv => od_set (fst kv) (snd kv) d) l d) = Some v ->
              In (k, v) l \/ od_get k d = Some v).
  { induction l as [|[k0 v0] l IH]; intros d H; [now right|].
    simpl in H. apply IH in H. destruct H as [H|H]; [left; now right|].
    simpl fst in H. simpl snd in H.
    destruct (String.eqb_spec k0 k) as [->|Hne].
    - rewrite od_get_set_same in H. injection H as ->. left. now left.
    - rewrite od_get_set_other in H by assumption. now right. }
  intros H. destruct (G [] H) as [Hin|Hnone]; [exact Hin | discriminate].
Qed.

Lemma append_same_length (x y s1 s2 : string) :
  String.length s1 = String.length s2 ->
  (x ++ s1)%string = (y ++ s2)%string -> s1 = s2.
Proof.
  revert y. induction x as [|c x IH]; intros y Hlen H.
  - destruct y as [|c' y]; [exact H|].
    apply (f_equal String.length) in H. simpl in H.
    rewrite length_append in H. lia.
  - destruct y as [|c' y].
    + apply (f_equal String.length) in H. simpl in H.
      rewrite length_append in H. lia.
    + simpl in H. injection H as _ H. now apply (IH y).
Qed.

(** The name the index gives for a table is never the name of a file the
    export writes. *)
Lemma index_name_not_output (api table_name : string) :
  ("exports/individual_apis_enhanced/" ++ (api ++ "_api_v2.1.yaml"))%string
  <> Enhanced.output_file table_name.
Proof.
  unfold Enhanced.output_file. intros H.
  assert (H' : ((api ++ "_api_") ++ "v2.1.yaml")%string
               = (table_name ++ "_api.yaml")%string).
  { rewrite append_assoc.
    apply (append_same_length "exports/individual_apis_enhanced/"
             "exports/individual_apis_enhanced/") in H.
    - exact H.
    - apply (f_equal String.length) in H. simpl in H. lia. }
  apply append_same_length in H'; [discriminate | reflexivity].
Qed.

End EnhancedRun.

Lemma written_files_are_outputs (sink : string -> result unit)
    (tables : list table_input) (f : string) (doc : value) :
  In (f, doc) (Enhanced.written (Enhanced.run sink tables)) ->
  exists n, f = Enhanced.output_file n.
Proof.
  intros Hf. apply (in_map fst) in Hf. simpl in Hf.
  unfold Enhanced.run in Hf.
  destruct (enhanced_run_from sink tables Enhanced.run_init) as [_ [H2 _]].
  rewrite H2 in Hf. simpl in Hf. apply in_map_iff in Hf.
  destruct Hf as [n [<- _]]. eauto.
Qed.

(** X16.  After the per-table export, [generated_files] holds the file of
    each table that had rows and whose write succeeded, in order; these are
    exactly the files written; and each of these tables is listed once, in
    [searchable_apis] when the advisor classifies its name as searchable and
    in [system_apis] when it does not. *)
Theorem index_lists_written_tables (sink : string -> result unit)
    (tables : list table_input) :
  let s := Enhanced.run sink tables in
  let names := map tbl_name (filter (wrote sink) tables) in
  Enhanced.generated_files s = map Enhanced.output_file names
  /\ map fst (Enhanced.written s) = Enhanced.generated_files s
  /\ Enhanced.searchable_apis s
     = filter Enhanced.should_generate_query_params_individual names
  /\ Enhanced.system_apis s
     = filter (fun n => negb (Enhanced.should_generate_query_params_individual n))
         names
  /\ List.length (Enhanced.searchable_apis s) + List.length (Enhanced.system_apis s)
     = List.length (Enhanced.generated_files s).
Proof.
  intros s names. subst s names. unfold Enhanced.run.
  destruct (enhanced_run_from sink tables Enhanced.run_init) as [H1 [H2 [H3 H4]]].
  cbn [Enhanced.run_init Enhanced.generated_files Enhanced.written
       Enhanced.searchable_apis Enhanced.system_apis map app] in *.
  rewrite H1, H2, H3, H4.
  repeat split.
  rewrite filter_length. now rewrite !length_map.
Qed.

Example index_of_a_run :
  let s := Enhanced.run (fun f => if f =? Enhanced.output_file "tasks"
                                  then Raise "PermissionError" else Ok tt)
             [mkTable "users" (Ok users_columns);
              mkTable "tasks" (Ok users_columns);
              mkTable "ghost" (Raise "ProgrammingError");
              mkTable "audit_log" (Ok keyless_columns);
              mkTable "empty" (Ok [])] in
  Enhanced.generated_files s
  = ["exports/individual_apis_enhanced/users_api.yaml";
     "exports/individual_apis_enhanced/audit_log_api.yaml"]
  /\ Enhanced.searchable_apis s = ["users"]
  /\ Enhanced.system_apis s = ["audit_log"].
Proof. repeat split. Qed.

(** X17.  The index of the per-table export does not point to the files the
    export writes: whatever file name the index gives for a table, in either
    group, no file of that name was written in the output directory. *)
Theorem index_points_to_no_written_file (sink : string -> result unit)
    (tables : list table_input) (group api e f : string) (doc : value) :
  vpath ["seniorcare_individual_apis"; "apis"; group; api]
        (Enhanced.index_content (Enhanced.run sink tables)) = Some (VStr e) ->
  In (f, doc) (Enhanced.written (Enhanced.run sink tables)) ->
  e = (api ++ "_api_v2.1.yaml")%string
  /\ f <> ("exports/individual_apis_enhanced/" ++ e)%string.
Proof.
  intros Hidx Hf.
  assert (He : e = (api ++ "_api_v2.1.yaml")%string).
  { set (entry := fun a : string => (a, VStr (a ++ "_api_v2.1.yaml"))).
    set (s := Enhanced.run sink tables) in Hidx.
    change (vpath ["seniorcare_individual_apis"; "apis"; group; api]
              (Enhanced.index_content s))
      with (match od_get group
                    [("searchable",
                      VDict (od_of_pairs (map entry (Enhanced.searchable_apis s))));
                     ("system",
                      VDict (od_of_pairs (map entry (Enhanced.system_apis s))))]
            with
            | Some x => vpath [api] x
            | None => None
            end) in Hidx.
    assert (G : forall l,
               vpath [api] (VDict (od_of_pairs (map entry l))) = Some (VStr e) ->
               e = (api ++ "_api_v2.1.yaml")%string).
    { intros l H. rewrite vpath_one in H.
      apply od_of_pairs_lookup in H.
      apply in_map_iff in H. destruct H as [a [Ha _]].
      unfold entry in Ha. injection Ha as -> ->. reflexivity. }
    cbn [od_get] in Hidx.
    destruct ("searchable" =? group); [now apply G in Hidx|].
    destruct ("system" =? group); [now apply G in Hidx | discriminate]. }
  split; [exact He|]. subst e.
  destruct (written_files_are_outputs sink tables f doc Hf) as [n ->].
  intros H. symmetry in H. revert H. apply index_name_not_output.
Qed.

Lemma index_points_to_no_written_file_witness :
  "exports/individual_apis_enhanced/users_api.yaml"
  <> "exports/individual_apis_enhanced/users_api_v2.1.yaml".
Proof.
  refine (proj2 (index_points_to_no_written_file (fun _ => Ok tt)
                   [mkTable "users" (Ok users_columns)]
                   "searchable" "users" "users_api_v2.1.yaml"
                   "exports/individual_apis_enhanced/users_api.yaml" _ _ _)).
  - reflexivity.
  - left. reflexivity.
Defined.

(** X18.  In the per-table export the body of the [try] returns normally
    only for a table without columns.  For a table with columns whose write
    succeeds it raises after the work is done: the file is written and
    recorded, the table is put into one of the two index lists, and only
    then does the body raise, at the [print] that reads [status_icon]. *)
Theorem table_body_always_raises (sink : string -> result unit)
    (t : table_input) (s : Enhanced.run_state) :
  (raises (Enhanced.process_table sink t) s = false <-> tbl_describe t = Ok [])
  /\ (wrote sink t = true ->
      snd (Enhanced.process_table sink t s) = Raise "NameError"
      /\ exists doc,
           Enhanced.create_enhanced_individual_table_spec (tbl_name t)
             (match tbl_describe t with Ok columns => columns | Raise _ => [] end)
           = Ok doc
           /\ Enhanced.written (try_continue (Enhanced.process_table sink t) s)
              = Enhanced.written s ++ [(Enhanced.output_file (tbl_name t), doc)]
           /\ Enhanced.generated_files
                (try_continue (Enhanced.process_table sink t) s)
              = Enhanced.generated_files s ++ [Enhanced.output_file (tbl_name t)]).
Proof.
  unfold raises, try_continue, wrote, has_rows, sink_ok, Enhanced.process_table,
    bind, lift, modify, raise, ret.
  destruct (tbl_describe t) as [[|c0 rest]|e].
  - split; [split; reflexivity | discriminate].
  - destruct (enhanced_create_ok (tbl_name t) (c0 :: rest)) as [doc Hdoc].
    rewrite Hdoc.
    destruct (sink (Enhanced.output_file (tbl_name t))) as [u|e].
    + split.
      * destruct (Enhanced.should_generate_query_params_individual _);
          split; discriminate.
      * intros _.
        destruct (Enhanced.should_generate_query_params_individual _);
          (split; [reflexivity|]); exists doc; repeat split.
    + split; [split; discriminate | discriminate].
  - split; [split; discriminate | discriminate].
Qed.

Lemma table_body_always_raises_witness :
  snd (Enhanced.process_table (fun _ => Ok tt)
         (mkTable "users" (Ok users_columns)) Enhanced.run_init)
  = Raise "NameError".
Proof.
  apply (proj2 (table_body_always_raises (fun _ => Ok tt)
                  (mkTable "users" (Ok users_columns)) Enhanced.run_init)).
  reflexivity.
Defined.

(* ================================================================== *)
(** ** The data export *)
(* ================================================================== *)

Section DataExport.

Import YamlData.

Variable cell : Type.
Variable convert : cell -> cell.

Lemma rd_set_new (k : string) (v : cell) (d : row_dict cell) :
  ~ In k (map fst d) -> rd_set cell k v d = d ++ [(k, v)].
Proof.
  induction d as [|[k0 v0] d IH]; intros Hk; [reflexivity|].
  simpl in *. destruct (k0 =? k) eqn:E.
  - apply String.eqb_eq in E. tauto.
  - rewrite IH; tauto.
Qed.

Lemma skipn_nth_error {A : Type} (l : list A) (i : nat) (x : A) :
  nth_error l i = Some x -> skipn i l = x :: skipn (S i) l.
Proof.
  revert i. induction l as [|a l IH]; intros [|i] H; try discriminate.
  - injection H as ->. reflexivity.
  - simpl in H. apply IH in H. exact H.
Qed.

Lemma fill_row_short (columns : list string) (row : list cell) (i : nat)
    (d : row_dict cell) :
  i <= List.length row -> List.length row < i + List.length columns ->
  fill_row cell convert columns row i d = Raise "IndexError".
Proof.
  revert i d. induction columns as [|col rest IH]; intros i d Hi Hlen.
  - simpl in Hlen. lia.
  - simpl. destruct (nth_error row i) as [x|] eqn:E; [|reflexivity].
    assert (i < List.length row) by (apply nth_error_Some; congruence).
    apply IH; simpl in Hlen; lia.
Qed.

Lemma fill_row_ok (columns : list string) (row : list cell) (i : nat)
    (d : row_dict cell) :
  i + List.length columns <= List.length row ->
  NoDup (map fst d ++ columns) ->
  fill_row cell convert columns row i d
  = Ok (d ++ combine columns
               (map convert (firstn (List.length columns) (skipn i row)))).
Proof.
  revert i d. induction columns as [|col rest IH]; intros i d Hlen Hnd.
  - simpl. now rewrite app_nil_r.
  - simpl in Hlen. simpl fill_row.
    destruct (nth_error row i) as [x|] eqn:E.
    + pose proof (NoDup_remove_2 _ _ _ Hnd) as Hnew.
      rewrite rd_set_new by (intros H; apply Hnew; apply in_or_app; now left).
      rewrite IH.
      * rewrite (skipn_nth_error row i x E). simpl.
        now rewrite <- app_assoc.
      * lia.
      * rewrite map_app. simpl. now rewrite <- app_assoc.
    + apply nth_error_None in E. lia.
Qed.

Lemma fill_row_raises (columns : list string) (row : list cell) (i : nat)
    (d : row_dict cell) (e : string) :
  fill_row cell convert columns row i d = Raise e -> e = "IndexError".
Proof.
  revert i d. induction columns as [|col rest IH]; intros i d H;
    [discriminate|].
  simpl in H. destruct (nth_error row i); [now apply IH in H|].
  now injection H as <-.
Qed.

Lemma table_data_short_row (columns : list string) (rows : list (list cell))
    (row : list cell) :
  In row rows -> List.length row < List.length columns ->
  make_table_data cell convert columns rows = Raise "IndexError".
Proof.
  intros Hin Hshort. induction rows as [|r rest IH]; [destruct Hin|].
  simpl. destruct Hin as [->|Hin].
  - unfold make_row_dict. rewrite fill_row_short by lia. reflexivity.
  - rewrite (IH Hin).
    destruct (make_row_dict cell convert columns r) as [d|e] eqn:E;
      [reflexivity|].
    unfold make_row_dict in E. apply fill_row_raises in E. now subst e.
Qed.

Lemma table_data_length (columns : list string) (rows : list (list cell))
    (data : list (row_dict cell)) :
  make_table_data cell convert columns rows = Ok data ->
  List.length data = List.length rows.
Proof.
  revert data. induction rows as [|r rest IH]; intros data H.
  - injection H as <-. reflexivity.
  - simpl in H. destruct (make_row_dict _ _ _ _); [|discriminate].
    destruct (make_table_data _ _ _ _) as [ds|]; [|discriminate].
    injection H as <-. simpl. now rewrite (IH ds).
Qed.

End DataExport.

(** X19.  One row of the data export: a row shorter than the column list
    raises [IndexError]; a row at least as long, under distinct column
    names, becomes the dictionary that gives each column, in order, the
    converted cell at the column's position; cells past the last column are
    dropped. *)
Theorem row_dict_of_row (cell : Type) (convert : cell -> cell)
    (columns : list string) (row : list cell) :
  (List.length row < List.length columns ->
   YamlData.make_row_dict cell convert columns row = Raise "IndexError")
  /\ (List.length columns <= List.length row -> NoDup columns ->
      YamlData.make_row_dict cell convert columns row
      = Ok (combine columns (map convert (firstn (List.length columns) row)))).
Proof.
  unfold YamlData.make_row_dict. split.
  - intros H. apply fill_row_short; lia.
  - intros Hlen Hnd. rewrite fill_row_ok; [reflexivity | lia | exact Hnd].
Qed.

Lemma row_dict_of_row_witness :
  YamlData.make_row_dict nat S ["id"; "age"] [1; 41; 7]
  = Ok [("id", 2); ("age", 42)]
  /\ YamlData.make_row_dict nat S ["id"; "age"] [1] = Raise "IndexError".
Proof.
  split.
  - apply (proj2 (row_dict_of_row nat S ["id"; "age"] [1; 41; 7])).
    + simpl. lia.
    + repeat constructor; simpl; intuition discriminate.
  - apply (proj1 (row_dict_of_row nat S ["id"; "age"] [1])). simpl. lia.
Defined.

(** X20.  The data export keeps its totals in step with its files:
    [total_records] is the sum of the record counts in [exported_files], and
    [exported_files] lists the files written, in order, each with the
    number of records in the file. *)
Theorem data_export_totals (cell : Type) (convert : cell -> cell)
    (sink : string -> result unit) (tables : list (YamlData.table_source cell)) :
  let s := YamlData.run cell convert sink tables in
  YamlData.total_records cell s
    = list_sum (map snd (YamlData.exported_files cell s))
  /\ map (fun e => (snd (fst e), snd e)) (YamlData.exported_files cell s)
     = map (fun f => (fst f, List.length (snd f))) (YamlData.files cell s).
Proof.
  intros s. subst s. unfold YamlData.run.
  apply (for_each_try_invariant (YamlData.process_table cell convert sink)
           (fun s =>
              YamlData.total_records cell s
                = list_sum (map snd (YamlData.exported_files cell s))
              /\ map (fun e => (snd (fst e), snd e)) (YamlData.exported_files cell s)
                 = map (fun f => (fst f, List.length (snd f)))
                     (YamlData.files cell s))).
  - intros t s [Ht Hf].
    unfold try_continue, YamlData.process_table, bind, lift, modify.
    destruct (YamlData.src_select cell t) as [rows|e]; [|now split].
    destruct (Nat.eqb (List.length rows) 0).
    + destruct (sink _); [|now split]. cbn.
      rewrite !map_app, list_sum_app, Ht, Hf. cbn. split; [lia | reflexivity].
    + destruct (YamlData.src_describe cell t) as [cols|e]; [|now split].
      destruct (YamlData.make_table_data _ _ _ _) as [data|e]; [|now split].
      destruct (sink _); [|now split]. cbn.
      rewrite !map_app, list_sum_app, Ht, Hf. cbn. split; [lia | reflexivity].
  - split; reflexivity.
Qed.

(** X21.  In the data export a table is written whole or not at all: when
    one of its rows is shorter than its column list, the table raises before
    its file is opened, and the run is left as it was. *)
Theorem short_row_skips_table (cell : Type) (convert : cell -> cell)
    (sink : string -> result unit) (t : YamlData.table_source cell)
    (rows : list (list cell)) (columns : list column) (row : list cell)
    (s : YamlData.run_state cell) :
  YamlData.src_select cell t = Ok rows ->
  YamlData.src_describe cell t = Ok columns ->
  In row rows -> List.length row < List.length columns ->
  YamlData.process_table cell convert sink t s = (s, Raise "IndexError").
Proof.
  intros Hsel Hdesc Hin Hshort.
  unfold YamlData.process_table, bind, lift. rewrite Hsel.
  destruct rows as [|r rest]; [destruct Hin|].
  cbn [List.length Nat.eqb]. rewrite Hdesc.
  rewrite (table_data_short_row cell convert _ _ row Hin);
    [reflexivity | now rewrite length_map].
Qed.

Lemma short_row_skips_table_witness :
  YamlData.run nat S (fun _ => Ok tt)
    [YamlData.mkSource nat "users" (Ok [[1; 2; 3]; [4]]) (Ok users_columns)]
  = YamlData.run_init nat.
Proof.
  unfold YamlData.run, for_each_try, try_continue. cbn [fold_left].
  assert (Hin : In [4] [[1; 2; 3]; [4]]) by (right; left; reflexivity).
  assert (Hshort : List.length [4] < List.length users_columns) by (simpl; lia).
  rewrite (short_row_skips_table nat S (fun _ => Ok tt)
             (YamlData.mkSource nat "users" (Ok [[1; 2; 3]; [4]])
                (Ok users_columns))
             [[1; 2; 3]; [4]] users_columns [4] (YamlData.run_init nat)
             eq_refl eq_refl Hin Hshort).
  reflexivity.
Defined.
